(** * N3FJP scoreboard: response parser and aggregation engine

    A shallow embedding of [server.py]: the tag parser
    ([_parse_tags], [parse_cmd_records]), the mode-points classifier
    ([points_from_modetest]) and the aggregation state ([Aggregates] with
    [add_record], [_calculate_field_day_bonus], [_calculate_rates] and the
    totals of [snapshot]).

    Data model.
    - A Python [str] is a [string]; the development covers ASCII text: the
      character classes below (white space, digits, letters, case mapping)
      are the ASCII part of the interpreter's tables.
    - A record ([Dict[str, str]]) is a [gmap string string]; [r.get(k)] is
      [r !! k].  Counter dictionaries are [gmap string Z], the sets are
      [gset].  The order in which a dictionary lists its keys is not
      modelled: no statement below depends on it.
    - Python integers are [Z].
    - The float produced by [round(a / b, 1)] is a binary64 [float]. *)

From Stdlib Require Import ZArith NArith Ascii String List Lia.
From Stdlib Require Import SpecFloat DecimalString.
From stdpp Require Import gmap strings list fin_maps sorting.

Local Open Scope Z_scope.
Local Open Scope string_scope.

(** ** Python string operations *)

Module PyStr.

Definition code (c : ascii) : N := N_of_ascii c.

Definition in_range (lo hi : N) (c : ascii) : bool :=
  ((lo <=? code c) && (code c <=? hi))%N.

(** [str.isspace] on one character: TAB..CR, FS..US and SPACE. *)
Definition is_space (c : ascii) : bool :=
  in_range 9 13 c || in_range 28 32 c.

(** The white space [int()] skips around a literal. *)
Definition is_c_space (c : ascii) : bool :=
  in_range 9 13 c || in_range 32 32 c.

Definition is_digit (c : ascii) : bool := in_range 48 57 c.
Definition is_upper (c : ascii) : bool := in_range 65 90 c.
Definition is_lower (c : ascii) : bool := in_range 97 122 c.

Definition upper_char (c : ascii) : ascii :=
  if is_lower c then ascii_of_N (code c - 32) else c.

Definition lower_char (c : ascii) : ascii :=
  if is_upper c then ascii_of_N (code c + 32) else c.

Definition eqb_char (a b : ascii) : bool := Ascii.eqb a b.

(** Equality of two characters under [re.IGNORECASE]. *)
Definition eqb_char_ci (a b : ascii) : bool :=
  Ascii.eqb (lower_char a) (lower_char b).

Fixpoint upper (s : string) : string :=
  match s with
  | EmptyString => EmptyString
  | String c s' => String (upper_char c) (upper s')
  end.

Fixpoint lstrip_by (sp : ascii -> bool) (s : string) : string :=
  match s with
  | EmptyString => EmptyString
  | String c s' => if sp c then lstrip_by sp s' else s
  end.

Fixpoint rstrip_by (sp : ascii -> bool) (s : string) : string :=
  match s with
  | EmptyString => EmptyString
  | String c s' =>
      match rstrip_by sp s' with
      | EmptyString => if sp c then EmptyString else String c EmptyString
      | t => String c t
      end
  end.

Definition strip_by (sp : ascii -> bool) (s : string) : string :=
  rstrip_by sp (lstrip_by sp s).

(** [s.strip()] *)
Definition strip (s : string) : string := strip_by is_space s.

Definition is_empty (s : string) : bool :=
  match s with EmptyString => true | String _ _ => false end.

(** Truth value of a [str]: non-empty. *)
Definition truthy (s : string) : bool := negb (is_empty s).

Fixpoint all_chars (p : ascii -> bool) (s : string) : bool :=
  match s with
  | EmptyString => true
  | String c s' => p c && all_chars p s'
  end.

(** [s.isdigit()] *)
Definition isdigit (s : string) : bool := truthy s && all_chars is_digit s.

(** [sep in s] for a one-character [sep]. *)
Fixpoint contains_char (sep : ascii) (s : string) : bool :=
  match s with
  | EmptyString => false
  | String c s' => eqb_char c sep || contains_char sep s'
  end.

(** [s.split(sep)] for a one-character [sep]: empty pieces are kept. *)
Fixpoint split_on (sep : ascii) (s : string) : list string :=
  match s with
  | EmptyString => [EmptyString]
  | String c s' =>
      if eqb_char c sep then EmptyString :: split_on sep s'
      else match split_on sep s' with
           | [] => [String c EmptyString]
           | p :: ps => String c p :: ps
           end
  end.

(** [s.split()]: the maximal runs of characters that are not white space. *)
Fixpoint split_ws_aux (cur : option string) (s : string) : list string :=
  match s with
  | EmptyString => match cur with Some w => [String.rev w] | None => [] end
  | String c s' =>
      if is_space c then
        match cur with
        | Some w => String.rev w :: split_ws_aux None s'
        | None => split_ws_aux None s'
        end
      else
        match cur with
        | Some w => split_ws_aux (Some (String c w)) s'
        | None => split_ws_aux (Some (String c EmptyString)) s'
        end
  end.

Definition split_ws (s : string) : list string := split_ws_aux None s.

(** [s.replace(c, "")] for a one-character [c]. *)
Fixpoint remove_char (x : ascii) (s : string) : string :=
  match s with
  | EmptyString => EmptyString
  | String c s' => if eqb_char c x then remove_char x s' else String c (remove_char x s')
  end.

(** [s[i:j]] for [0 <= i <= j]. *)
Definition slice (i j : nat) (s : string) : string := substring i (j - i) s.

(** [s.zfill(2)]: pad on the left with zeros to width 2, after a leading
    sign if there is one. *)
Definition zfill2 (s : string) : string :=
  match s with
  | EmptyString => "00"
  | String c EmptyString =>
      if eqb_char c "+" || eqb_char c "-"
      then String c "0"
      else String "0" (String c EmptyString)
  | _ => s
  end.

(** *** [int(s)] in base 10

    White space around the literal is skipped, one sign is allowed, and
    single underscores may separate digits.  A literal of more than 4300
    digits is refused (the interpreter's limit on decimal conversions).
    [None] stands for [ValueError]. *)

Definition digit_val (c : ascii) : Z := Z.of_N (code c) - 48.

(** [digits_value acc n prev s]: [prev] tells whether the previous
    character was a digit (an underscore is allowed only then, and the
    literal cannot end on one); [n] counts the digits read. *)
Fixpoint digits_value (acc : Z) (n : nat) (prev : bool) (s : string) : option (Z * nat) :=
  match s with
  | EmptyString => if prev then Some (acc, n) else None
  | String c s' =>
      if is_digit c then digits_value (10 * acc + digit_val c) (S n) true s'
      else if eqb_char c "_" && prev then digits_value acc n false s'
      else None
  end.

Definition max_str_digits : nat := 4300.

Definition int_unsigned (s : string) : option Z :=
  match digits_value 0 0 false s with
  | Some (v, n) => if (max_str_digits <? n)%nat then None else Some v
  | None => None
  end.

Definition py_int (s : string) : option Z :=
  match strip_by is_c_space s with
  | String "+" t => int_unsigned t
  | String "-" t => Z.opp <$> int_unsigned t
  | t => int_unsigned t
  end.

End PyStr.

Import PyStr.

(** ** Records *)

(** [a or b] on the results of two [r.get] calls: the first one that is
    present and non-empty, else the second as it is. *)
Definition get_or (a b : option string) : option string :=
  match a with
  | Some (String _ _) => a
  | _ => b
  end.

(** [x or d] where [x] comes from [r.get] and [d] is a string. *)
Definition str_or (a : option string) (d : string) : string :=
  match a with
  | Some (String c s) => String c s
  | _ => d
  end.

(** ** [points_from_modetest] *)

Definition points_from_modetest (modetest : string) : Z :=
  let mt := upper (str_or (Some modetest) "") in
  if String.eqb mt "PH" then 1
  else if String.eqb mt "CW" || String.eqb mt "DIG" then 2
  else 0.

(** ** Regular-expression matching

    The patterns of the parser are matched by hand-written matchers.
    Each matcher works at the start of its argument and returns what it
    captured together with the text that follows the match.  All patterns
    are compiled with [re.IGNORECASE], so literals are compared up to
    case; [re.DOTALL] makes [.] match every character. *)

Module Regex.

(** A literal at the start of [s], compared up to case. *)
Fixpoint eat_ci (lit s : string) : option string :=
  match lit with
  | EmptyString => Some s
  | String a lit' =>
      match s with
      | String b s' => if eqb_char_ci a b then eat_ci lit' s' else None
      | EmptyString => None
      end
  end.

(** [(.*?)lit]: the text before the first occurrence of [lit], and the
    text after that occurrence. *)
Fixpoint find_lit_ci (lit s : string) : option (string * string) :=
  match eat_ci lit s with
  | Some rest => Some (EmptyString, rest)
  | None =>
      match s with
      | EmptyString => None
      | String c s' =>
          match find_lit_ci lit s' with
          | Some (v, rest) => Some (String c v, rest)
          | None => None
          end
      end
  end.

(** The longest prefix of characters satisfying [p], and what follows. *)
Fixpoint span (p : ascii -> bool) (s : string) : string * string :=
  match s with
  | EmptyString => (EmptyString, EmptyString)
  | String c s' =>
      if p c then let '(a, b) := span p s' in (String c a, b)
      else (EmptyString, s)
  end.

(** [[A-Z0-9_]] under [re.IGNORECASE]. *)
Definition is_tag_char (c : ascii) : bool :=
  is_upper c || is_lower c || is_digit c || eqb_char c "_".

(** [<([A-Z0-9_]+)>(.*?)</\1>] at the start of [s]: the tag name, the
    value and the rest.  The name is the whole run of name characters
    after [<]: a shorter name would have to be followed by [>], which is
    not a name character. *)
Definition tag_at (s : string) : option ((string * string) * string) :=
  match s with
  | String "<" s1 =>
      match span is_tag_char s1 with
      | (String n0 n1, String ">" s2) =>
          let name := String n0 n1 in
          match find_lit_ci ("</" ++ name ++ ">") s2 with
          | Some (val, rest) => Some ((name, val), rest)
          | None => None
          end
      | _ => None
      end
  | _ => None
  end.

(** [open \s* LISTRESPONSE \s* >] at the start of [s], where [open] is
    [<] or [</]. *)
Definition delim_at (open s : string) : option string :=
  match eat_ci open s with
  | Some s1 =>
      match eat_ci "LISTRESPONSE" (lstrip_by is_space s1) with
      | Some s2 => eat_ci ">" (lstrip_by is_space s2)
      | None => None
      end
  | None => None
  end.

(** [</\s*LISTRESPONSE\s*>] *)
Definition close_at (s : string) : option string := delim_at "</" s.

(** [<\s*LISTRESPONSE\s*>] *)
Definition marker_at (s : string) : option string := delim_at "<" s.

(** [<LISTRESPONSE>(.*?)</LISTRESPONSE>] at the start of [s]. *)
Definition block_at (s : string) : option (string * string) :=
  match eat_ci "<LISTRESPONSE>" s with
  | Some s1 => find_lit_ci "</LISTRESPONSE>" s1
  | None => None
  end.

(** Number of characters of [s] before its suffix [rest]. *)
Definition consumed (s rest : string) : nat :=
  (String.length s - String.length rest)%nat.

(** [re.search]: is there a position where the matcher succeeds? *)
Fixpoint search {A} (m : string -> option A) (s : string) : bool :=
  match m s with
  | Some _ => true
  | None =>
      match s with
      | EmptyString => false
      | String _ s' => search m s'
      end
  end.

(** [re.findall]: the captures of the successive matches, left to right.
    After a match the scan resumes at the end of that match: [skip] is the
    number of characters still to pass over. *)
Fixpoint findall {A} (m : string -> option (A * string)) (skip : nat) (s : string) : list A :=
  match s with
  | EmptyString => []
  | String _ s' =>
      match skip with
      | S k => findall m k s'
      | O =>
          match m s with
          | Some (a, rest) => a :: findall m (consumed s rest - 1) s'
          | None => findall m 0 s'
          end
      end
  end.

Definition cons_head (c : ascii) (ps : list string) : list string :=
  match ps with
  | [] => [String c EmptyString]
  | p :: ps' => String c p :: ps'
  end.

(** [re.split]: the pieces of [s] between the successive matches. *)
Fixpoint split (m : string -> option string) (skip : nat) (s : string) : list string :=
  match s with
  | EmptyString => [EmptyString]
  | String c s' =>
      match skip with
      | S k => split m k s'
      | O =>
          match m s with
          | Some rest => EmptyString :: split m (consumed s rest - 1) s'
          | None => cons_head c (split m 0 s')
          end
      end
  end.

End Regex.

(** ** The response parser *)

(** [_TAG_RE.findall(block)] *)
Definition tag_pairs (block : string) : list (string * string) :=
  Regex.findall Regex.tag_at 0 block.

Definition structural_tags : list string := ["CMD"; "LISTRESPONSE"].

Definition parse_tags_step (rec : gmap string string) (tv : string * string) : gmap string string :=
  let tag_u := strip (upper (fst tv)) in
  if is_empty tag_u || bool_decide (tag_u ∈ structural_tags) then rec
  else <[tag_u := strip (snd tv)]> rec.

Definition _parse_tags (block : string) : gmap string string :=
  foldl parse_tags_step ∅ (tag_pairs block).

(** The records of a list of chunks; an empty record is not kept. *)
Fixpoint records_of (chunks : list string) : list (gmap string string) :=
  match chunks with
  | [] => []
  | blk :: rest =>
      let rec := _parse_tags blk in
      if decide (rec = ∅) then records_of rest else rec :: records_of rest
  end.

(** [re.search(r"</\s*LISTRESPONSE\s*>", text)] *)
Definition has_close (text : string) : bool := Regex.search Regex.close_at text.

(** [re.findall(r"<LISTRESPONSE>(.*?)</LISTRESPONSE>", text)] *)
Definition closed_blocks (text : string) : list string :=
  Regex.findall Regex.block_at 0 text.

(** [re.split(r"<\s*LISTRESPONSE\s*>", text)] *)
Definition marker_parts (text : string) : list string :=
  Regex.split Regex.marker_at 0 text.

Definition parse_format_a (text : string) : list (gmap string string) :=
  records_of (closed_blocks text).

Definition parse_format_b (text : string) : list (gmap string string) :=
  records_of (tail (marker_parts text)).

Definition parse_cmd_records (text : string) : list (gmap string string) :=
  if is_empty text then []
  else if has_close text then parse_format_a text
  else parse_format_b text.

(** ** Aggregation state *)

(** One entry of a station's recent-contact list. *)
Record QsoEntry := {
  qe_call : string;
  qe_operator : string;
  qe_band : string;
  qe_mode : string;
  qe_time : string;
}.

(** One value of the [stations] dictionary. *)
Record Station := {
  st_name : string;
  st_operator : string;
  st_band : string;
  st_mode : string;
  st_recent : list QsoEntry;
  st_lastUpdate : string;
}.

Record Aggregates := {
  seen_keys : gset Z;
  total_contacts : Z;
  total_points : Z;
  contacts_by_operator : gmap string Z;
  points_by_operator : gmap string Z;
  contacts_by_mode : gmap string Z;
  contacts_by_band : gmap string Z;
  contacts_by_continent : gmap string Z;
  contacts_by_state : gmap string Z;
  contacts_by_country : gmap string Z;
  sections_worked : gset string;
  stations : gmap string Station;
  qsos_by_hour : gmap string Z;
  qsos_by_band_hour : gmap string (gmap string Z);
  all_qso_times : list string;
}.

(** [Aggregates()] *)
Definition empty_aggregates : Aggregates := {|
  seen_keys := ∅;
  total_contacts := 0;
  total_points := 0;
  contacts_by_operator := ∅;
  points_by_operator := ∅;
  contacts_by_mode := ∅;
  contacts_by_band := ∅;
  contacts_by_continent := ∅;
  contacts_by_state := ∅;
  contacts_by_country := ∅;
  sections_worked := ∅;
  stations := ∅;
  qsos_by_hour := ∅;
  qsos_by_band_hour := ∅;
  all_qso_times := [];
|}.

(** [d[k] = d.get(k, 0) + n] *)
Definition bump (k : string) (n : Z) (d : gmap string Z) : gmap string Z :=
  <[k := default 0 (d !! k) + n]> d.

(** [if k: d[k] = d.get(k, 0) + 1] *)
Definition bump_if_present (k : string) (d : gmap string Z) : gmap string Z :=
  if truthy k then bump k 1 d else d.

(** *** The fields [add_record] reads from a record *)

(** [pk_raw]: the field [FLDPRIMARYKEY], else [PRIMARYKEY]. *)
Definition pk_raw (r : gmap string string) : option string :=
  get_or (r !! "FLDPRIMARYKEY") (r !! "PRIMARYKEY").

(** [pk]: [pk_raw] converted by [int]; [None] when the field is absent or
    empty, and when the conversion raises [ValueError]. *)
Definition primary_key (r : gmap string string) : option Z :=
  match pk_raw r with
  | Some (String c s) => py_int (String c s)
  | _ => None
  end.

Definition operator_of (r : gmap string string) : string :=
  match strip (str_or (get_or (r !! "FLDOPERATOR") (r !! "OPERATOR")) "") with
  | EmptyString => "UNKNOWN"
  | op => op
  end.

(** [r.get("MODETEST", "")] *)
Definition modetest_of (r : gmap string string) : string :=
  default "" (r !! "MODETEST").

Definition mode_of (r : gmap string string) : string :=
  match strip (str_or (r !! "MODE") "") with
  | EmptyString => "UNK"
  | mode => mode
  end.

(** [(r.get(k) or "").strip()] *)
Definition field (k : string) (r : gmap string string) : string :=
  strip (str_or (r !! k) "").

Definition band_of : gmap string string -> string := field "BAND".
Definition continent_of : gmap string string -> string := field "CONTINENT".
Definition state_of : gmap string string -> string := field "STATE".
Definition country_of : gmap string string -> string := field "COUNTRYWORKED".

Definition section_of (r : gmap string string) : string :=
  strip (str_or (get_or (r !! "ARRLSECTION") (r !! "SECTION")) "").

Definition qso_date_of (r : gmap string string) : string :=
  strip (str_or (get_or (get_or (r !! "DATE") (r !! "QSODATE")) (r !! "FLDQSODATE")) "").

Definition qso_time_of (r : gmap string string) : string :=
  strip (str_or (get_or (r !! "TIMEON") (r !! "FLDTIMEON")) "").

Definition call_of : gmap string string -> string := field "CALL".

(** *** Timestamp derivation

    The body of the [try] block, up to the test [if month and day and
    hour].  [Raised] stands for the [IndexError] of [parts[1].split()[0]]
    when nothing but white space follows the first slash; it is raised
    before the state is touched and caught by the [except] clause. *)

Inductive outcome (A : Type) : Type :=
  | Returned (a : A)
  | Raised.
Arguments Returned {A} a.
Arguments Raised {A}.

(** [month, day] from the date: [None] where the source leaves them
    [None]. *)
Definition month_day (qso_date : string) : outcome (option (string * string)) :=
  if contains_char "/" qso_date then
    match split_on "/" qso_date with
    | p0 :: p1 :: _ =>
        match split_ws p1 with
        | w :: _ => Returned (Some (zfill2 p0, zfill2 w))
        | [] => Raised
        end
    | _ => Returned None
    end
  else if (String.length qso_date =? 8)%nat && isdigit qso_date then
    Returned (Some (slice 4 6 qso_date, slice 6 8 qso_date))
  else Returned None.

(** [hour] from the time. *)
Definition hour_of (qso_time : string) : option string :=
  if truthy qso_time then
    let time_clean := strip (remove_char ":" qso_time) in
    if (2 <=? String.length time_clean)%nat then Some (slice 0 2 time_clean)
    else None
  else None.

(** The hour-bucket key, when [month], [day] and [hour] are all set and
    non-empty. *)
Definition hour_key (qso_date qso_time : string) : outcome (option string) :=
  match month_day qso_date with
  | Raised => Raised
  | Returned md =>
      match md, hour_of qso_time with
      | Some (month, day), Some hour =>
          if truthy month && truthy day && truthy hour
          then Returned (Some ("2026-" ++ month ++ "-" ++ day ++ "-" ++ hour))
          else Returned None
      | _, _ => Returned None
      end
  end.

(** The key under which the record is counted in the hourly histograms:
    [None] when the date or the time is empty, when the derivation fails
    and when it raises. *)
Definition time_bucket (qso_date qso_time : string) : option string :=
  if truthy qso_date && truthy qso_time then
    match hour_key qso_date qso_time with
    | Returned (Some k) => Some k
    | Returned None => None
    | Raised => None
    end
  else None.

(** *** The station registry *)

(** The station a record is filed under: the [STATION] field, else
    [FLDSTATION], else the fallback derived from the operator. *)
Definition station_of (r : gmap string string) : string :=
  match strip (str_or (get_or (r !! "STATION") (r !! "FLDSTATION")) "") with
  | EmptyString => "Op: " ++ operator_of r
  | station => station
  end.

(** [f"{qso_date} {qso_time}".strip()] *)
Definition full_time_of (r : gmap string string) : string :=
  strip (qso_date_of r ++ " " ++ qso_time_of r).

(** The contact summary put in front of the station's recent list. *)
Definition qso_entry_of (r : gmap string string) : QsoEntry := {|
  qe_call := call_of r;
  qe_operator := operator_of r;
  qe_band := band_of r;
  qe_mode := mode_of r;
  qe_time := full_time_of r;
|}.

(** The dictionary created for a station seen for the first time. *)
Definition new_station (r : gmap string string) : Station := {|
  st_name := station_of r;
  st_operator := operator_of r;
  st_band := band_of r;
  st_mode := mode_of r;
  st_recent := [];
  st_lastUpdate := full_time_of r;
|}.

(** The four assignments and the update of ["recent"]:
    [insert(0, qso_entry)] followed by the slice [[:5]]. *)
Definition update_station (r : gmap string string) (st : Station) : Station := {|
  st_name := st_name st;
  st_operator := operator_of r;
  st_band := band_of r;
  st_mode := mode_of r;
  st_recent := take 5 (qso_entry_of r :: st_recent st);
  st_lastUpdate := full_time_of r;
|}.

Definition upsert_station (r : gmap string string) (sts : gmap string Station) : gmap string Station :=
  let station := station_of r in
  let st := default (new_station r) (sts !! station) in
  <[station := update_station r st]> sts.

(** *** [add_record] *)

(** The per-band hourly histogram: the band's dictionary is created when
    missing, then its bucket is incremented. *)
Definition bump_band_hour (band key : string) (d : gmap string (gmap string Z)) : gmap string (gmap string Z) :=
  if truthy band then <[band := bump key 1 (default ∅ (d !! band))]> d else d.

(** Is the record discarded as a duplicate? *)
Definition is_duplicate (s : Aggregates) (r : gmap string string) : bool :=
  match primary_key r with
  | Some pk => bool_decide (pk ∈ seen_keys s)
  | None => false
  end.

(** The state after the merge of a record that is not discarded.  The
    messages written to the error stream are not part of the state. *)
Definition merge (s : Aggregates) (r : gmap string string) : Aggregates :=
  let op := operator_of r in
  let pts := points_from_modetest (modetest_of r) in
  let band := band_of r in
  let bucket := time_bucket (qso_date_of r) (qso_time_of r) in
  {|
    seen_keys :=
      match primary_key r with
      | Some pk => {[pk]} ∪ seen_keys s
      | None => seen_keys s
      end;
    total_contacts := total_contacts s + 1;
    total_points := total_points s + pts;
    contacts_by_operator := bump op 1 (contacts_by_operator s);
    points_by_operator := bump op pts (points_by_operator s);
    contacts_by_mode := bump (mode_of r) 1 (contacts_by_mode s);
    contacts_by_band := bump_if_present band (contacts_by_band s);
    contacts_by_continent := bump_if_present (continent_of r) (contacts_by_continent s);
    contacts_by_state := bump_if_present (state_of r) (contacts_by_state s);
    contacts_by_country := bump_if_present (country_of r) (contacts_by_country s);
    sections_worked :=
      let section := section_of r in
      if truthy section then {[section]} ∪ sections_worked s else sections_worked s;
    stations := upsert_station r (stations s);
    qsos_by_hour :=
      match bucket with
      | Some key => bump key 1 (qsos_by_hour s)
      | None => qsos_by_hour s
      end;
    qsos_by_band_hour :=
      match bucket with
      | Some key => bump_band_hour band key (qsos_by_band_hour s)
      | None => qsos_by_band_hour s
      end;
    all_qso_times :=
      match bucket with
      | Some _ => app (all_qso_times s) [qso_date_of r ++ " " ++ qso_time_of r]
      | None => all_qso_times s
      end;
  |}.

Definition add_record (s : Aggregates) (r : gmap string string) : Aggregates :=
  if is_duplicate s r then s else merge s r.

(** The loop [for r in recs: self.agg.add_record(r)] of [seed] and
    [poll_once]. *)
Definition add_records (s : Aggregates) (recs : list (gmap string string)) : Aggregates :=
  foldl add_record s recs.

(** ** Floats

    A float is a binary64 value in the representation of [SpecFloat]: sign,
    mantissa and exponent.  [SFdiv] rounds the exact quotient to the
    nearest float, ties to even. *)

Module PyFloat.

Definition prec : Z := 53.
Definition emax : Z := 1024.

Definition of_int (z : Z) : spec_float :=
  match z with
  | Z0 => S754_zero false
  | Zpos p => S754_finite false p 0
  | Zneg p => S754_finite true p 0
  end.

(** [a / b] on two integers: the float nearest to the exact quotient.
    ([b] is never zero where the source divides; a quotient beyond the
    range of floats, which makes the interpreter raise, needs counters of
    more than three hundred digits.) *)
Definition truediv (a b : Z) : spec_float :=
  SFdiv prec emax (of_int a) (of_int b).

(** The integer nearest to [m * 2^e], ties to even. *)
Definition round_half_even (m e : Z) : Z :=
  match e with
  | Zneg p =>
      let den := Z.pow_pos 2 p in
      let q := m / den in
      let r := m mod den in
      match Z.compare (2 * r) den with
      | Lt => q
      | Gt => q + 1
      | Eq => if Z.even q then q else q + 1
      end
  | _ => m * 2 ^ e
  end.

(** [round(x, 1)]: the exact value of [x] is rounded to a whole number of
    tenths, ties to even, and the result is the float nearest to that
    decimal. *)
Definition round1 (x : spec_float) : spec_float :=
  match x with
  | S754_finite s m e =>
      match round_half_even (10 * Zpos m) e with
      | Zpos t => SFdiv prec emax (S754_finite s t 0) (of_int 10)
      | _ => S754_zero s
      end
  | _ => x
  end.

End PyFloat.

(** ** Scoring and rates *)

(** A JSON number of the snapshot: the source produces both kinds. *)
Inductive number : Type :=
  | Int (z : Z)
  | Float (x : spec_float).

(** The scoring entries of the configuration dictionary, each at the type
    the source reads it at; [field_day_class] is [None] when the key is
    missing. *)
Record ScoringConfig := {
  field_day_class : option string;
  emergency_power : bool;
  media_publicity : bool;
  public_location : bool;
  public_information_table : bool;
  nts_message_originated : Z;
  nts_message_handled : Z;
  satellite_qso : bool;
  w1aw_bulletin : bool;
  educational_activity : bool;
  social_media : bool;
  youth_participation : bool;
  site_visit_official : bool;
}.

(** The dictionary returned by [_calculate_field_day_bonus]. *)
Record FieldDayBonus := {
  bonusPoints : Z;
  bonusBreakdown : list (string * Z);
  classMultiplier : Z;
  powerMultiplier : Z;
  fdClass : string;
}.

(** [int(fd_class[0]) if fd_class and fd_class[0].isdigit() else 1] *)
Definition class_multiplier_of (fd_class : string) : Z :=
  match fd_class with
  | String c _ => if is_digit c then digit_val c else 1
  | EmptyString => 1
  end.

(** One boolean bonus: 100 points and a line of the breakdown. *)
Definition flag_bonus (flag : bool) (name : string) (acc : Z * list (string * Z)) : Z * list (string * Z) :=
  if flag then (fst acc + 100, app (snd acc) [(name, 100)]) else acc.

(** [str(n)] for the label of the message bonus. *)
Definition str_of_int (n : Z) : string :=
  DecimalString.NilZero.string_of_int (Z.to_int n).

Definition nts_bonus (originated handled : Z) (acc : Z * list (string * Z)) : Z * list (string * Z) :=
  let nts_originated := Z.min originated 10 in
  let nts_handled := Z.min handled 10 in
  let nts_total_points := (nts_originated + nts_handled) * 10 in
  if (0 <? nts_total_points)%Z then
    (fst acc + nts_total_points,
     app (snd acc) [("NTS Messages (" ++ str_of_int (nts_originated + nts_handled) ++ ")", nts_total_points)])
  else acc.

Definition _calculate_field_day_bonus (config : ScoringConfig) : FieldDayBonus :=
  let fd_class := default "1A" (field_day_class config) in
  let class_multiplier := class_multiplier_of fd_class in
  let power_multiplier := if emergency_power config then 2 else 1 in
  let b0 : Z * list (string * Z) := (0, []) in
  let b1 := flag_bonus (emergency_power config) "100% Emergency Power" b0 in
  let b2 := flag_bonus (media_publicity config) "Media Publicity" b1 in
  let b3 := flag_bonus (public_location config) "Public Location" b2 in
  let b4 := flag_bonus (public_information_table config) "Public Information Table" b3 in
  let b5 := nts_bonus (nts_message_originated config) (nts_message_handled config) b4 in
  let b6 := flag_bonus (satellite_qso config) "Satellite QSO" b5 in
  let b7 := flag_bonus (w1aw_bulletin config) "W1AW Bulletin Copy" b6 in
  let b8 := flag_bonus (educational_activity config) "Educational Activity" b7 in
  let b9 := flag_bonus (social_media config) "Social Media" b8 in
  let b10 := flag_bonus (youth_participation config) "Youth Participation" b9 in
  let b11 := flag_bonus (site_visit_official config) "Site Visit by Official" b10 in
  {|
    bonusPoints := fst b11;
    bonusBreakdown := snd b11;
    classMultiplier := class_multiplier;
    powerMultiplier := power_multiplier;
    fdClass := fd_class;
  |}.

(** [round(a / b, 1)] *)
Definition rate_of (a b : Z) : number :=
  Float (PyFloat.round1 (PyFloat.truediv a b)).

(** [sum(d.values())] *)
Definition sum_values (d : gmap string Z) : Z :=
  map_fold (fun _ v acc => v + acc) 0 d.

(** [len(d)] *)
Definition len {V} (d : gmap string V) : Z := Z.of_nat (size d).

(** The rate of one band in the first loop of [_calculate_rates]; [None]
    when the band's dictionary is empty and the band is passed over. *)
Definition band_rate (hour_data : gmap string Z) : option number :=
  if decide (hour_data = ∅) then None
  else
    let total_qsos := sum_values hour_data in
    let num_hours := len hour_data in
    Some (if (0 <? num_hours)%Z then rate_of total_qsos num_hours else Int 0).

Definition assumed_hours : Z := 24.

(** The dictionary [band_rates] of [_calculate_rates], which the snapshot
    lists under ["bandRates"], one entry per key, by descending rate. *)
Definition band_rates (s : Aggregates) : gmap string number :=
  let rates := omap band_rate (qsos_by_band_hour s) in
  if decide (rates = ∅) then
    if decide (contacts_by_band s = ∅) then rates
    else (fun count => rate_of count assumed_hours) <$> contacts_by_band s
  else rates.

(** The ["totals"] of a snapshot. *)
Record Totals := {
  t_contacts : Z;
  t_points : Z;
  t_bonusPoints : Z;
  t_finalScore : Z;
  t_classMultiplier : Z;
  t_powerMultiplier : Z;
}.

(** The parts of a snapshot the statements below are about: the totals,
    the number of sections, the band rates and the bonus dictionary (which
    is present when a non-empty configuration is given). *)
Record Snapshot := {
  totals : Totals;
  sections : Z;
  bandRates : gmap string number;
  fieldDayBonus : option FieldDayBonus;
}.

(** [snapshot(config)]; [None] stands for an absent or empty [config]. *)
Definition snapshot (s : Aggregates) (config : option ScoringConfig) : Snapshot :=
  let field_day_bonus := _calculate_field_day_bonus <$> config in
  let base_points := total_points s in
  let bonus_points := from_option bonusPoints 0 field_day_bonus in
  let class_mult := from_option classMultiplier 1 field_day_bonus in
  let power_mult := from_option powerMultiplier 1 field_day_bonus in
  let final_score := base_points * class_mult * power_mult + bonus_points in
  {|
    totals := {|
      t_contacts := total_contacts s;
      t_points := total_points s;
      t_bonusPoints := bonus_points;
      t_finalScore := final_score;
      t_classMultiplier := class_mult;
      t_powerMultiplier := power_mult;
    |};
    sections := Z.of_nat (size (sections_worked s));
    bandRates := band_rates s;
    fieldDayBonus := field_day_bonus;
  |}.

(** ** Notions used in the statements *)

(** A record carries a primary key when one of the two key fields is
    present and non-empty. *)
Definition carries_primary_key (r : gmap string string) : Prop :=
  exists c k, pk_raw r = Some (String c k).

(** The leading digit of a class code, read off the ten digits. *)
Definition leading_digit (class_code : string) : option Z :=
  match class_code with
  | String "0" _ => Some 0
  | String "1" _ => Some 1
  | String "2" _ => Some 2
  | String "3" _ => Some 3
  | String "4" _ => Some 4
  | String "5" _ => Some 5
  | String "6" _ => Some 6
  | String "7" _ => Some 7
  | String "8" _ => Some 8
  | String "9" _ => Some 9
  | _ => None
  end.

(** The class multiplier as the specification words it: the leading digit
    of the configured class code, 1 if the code is absent or does not
    start with a digit. *)
Definition spec_class_multiplier (class_code : option string) : Z :=
  match class_code with
  | Some code => default 1 (leading_digit code)
  | None => 1
  end.

(** The power multiplier as the specification words it. *)
Definition spec_power_multiplier (emergency : bool) : Z :=
  if emergency then 2 else 1.

(** A state with 100 points and nothing else, and a configuration of
    class 2 on emergency power with two more bonuses. *)
Definition hundred_points : Aggregates := {|
  seen_keys := ∅;
  total_contacts := 50;
  total_points := 100;
  contacts_by_operator := ∅;
  points_by_operator := ∅;
  contacts_by_mode := ∅;
  contacts_by_band := ∅;
  contacts_by_continent := ∅;
  contacts_by_state := ∅;
  contacts_by_country := ∅;
  sections_worked := ∅;
  stations := ∅;
  qsos_by_hour := ∅;
  qsos_by_band_hour := ∅;
  all_qso_times := [];
|}.

Definition class2_config : ScoringConfig := {|
  field_day_class := Some "2A";
  emergency_power := true;
  media_publicity := true;
  public_location := true;
  public_information_table := false;
  nts_message_originated := 0;
  nts_message_handled := 0;
  satellite_qso := false;
  w1aw_bulletin := false;
  educational_activity := false;
  social_media := false;
  youth_participation := false;
  site_visit_official := false;
|}.

(** Sample records: a contact with an integer key, and one whose key
    field is not an integer literal. *)
Definition keyed_record : gmap string string :=
  {[ "FLDPRIMARYKEY" := "12"; "CALL" := "W1AW"; "MODETEST" := "CW" ]}.

Definition non_integer_key_record : gmap string string :=
  {[ "FLDPRIMARYKEY" := "abc"; "CALL" := "W1AW"; "MODETEST" := "CW" ]}.

(** The two invariants relating a counter dictionary to the total: they
    hold of the empty state and every [add_record] keeps them. *)
Definition contacts_balanced (s : Aggregates) : Prop :=
  sum_values (contacts_by_operator s) = total_contacts s /\
  sum_values (contacts_by_mode s) = total_contacts s.

(** The invariant relating the hourly histogram to the list of time
    instants. *)
Definition hours_balanced (s : Aggregates) : Prop :=
  sum_values (qsos_by_hour s) = Z.of_nat (length (all_qso_times s)).

(** The fields the timestamp is read from. *)
Definition time_fields : list string :=
  ["DATE"; "QSODATE"; "FLDQSODATE"; "TIMEON"; "FLDTIMEON"].

(** Two records with the same fields apart from the date and the time. *)
Definition same_but_time (r r' : gmap string string) : Prop :=
  forall k : string, k ∉ time_fields -> r !! k = r' !! k.

(** The totals, counters and sets that are not about time. *)
Definition counters (s : Aggregates) :=
  (seen_keys s, total_contacts s, total_points s,
   contacts_by_operator s, points_by_operator s, contacts_by_mode s,
   contacts_by_band s, contacts_by_continent s, contacts_by_state s,
   contacts_by_country s, sections_worked s).

(** A registry entry without the time strings it carries. *)
Definition entry_untimed (e : QsoEntry) : QsoEntry := {|
  qe_call := qe_call e;
  qe_operator := qe_operator e;
  qe_band := qe_band e;
  qe_mode := qe_mode e;
  qe_time := "";
|}.

Definition station_untimed (st : Station) : Station := {|
  st_name := st_name st;
  st_operator := st_operator st;
  st_band := st_band st;
  st_mode := st_mode st;
  st_recent := entry_untimed <$> st_recent st;
  st_lastUpdate := "";
|}.

(** Sample records: a contact whose date has nothing after the slash (the
    derivation raises), and the same contact with a full date. *)
Definition bad_date_record : gmap string string :=
  {[ "CALL" := "K1ABC"; "BAND" := "20M"; "MODE" := "CW"; "MODETEST" := "CW";
     "OPERATOR" := "N0CALL"; "DATE" := "01/"; "TIMEON" := "21:59" ]}.

Definition good_date_record : gmap string string :=
  <["DATE" := "01/26"]> bad_date_record.

(** The records of a run that are merged rather than discarded, in the
    order of their merge. *)
Fixpoint accepted_from (s : Aggregates) (recs : list (gmap string string)) : list (gmap string string) :=
  match recs with
  | [] => []
  | r :: rest =>
      if is_duplicate s r then accepted_from s rest
      else r :: accepted_from (merge s r) rest
  end.

(** The merged records filed under one station, oldest first. *)
Definition station_log (name : string) (s : Aggregates) (recs : list (gmap string string)) : list (gmap string string) :=
  filter (fun r => station_of r = name) (accepted_from s recs).

(** The recent-contact list a station should show after its log: the
    summaries of the merged records, newest first, cut at five. *)
Definition recent_of_log (log : list (gmap string string)) : list QsoEntry :=
  take 5 (reverse (qso_entry_of <$> log)).

(** The invariant of the registry along a run from the empty state: a
    station is registered exactly when its log is not empty, and its
    recent list is the one of the log. *)
Definition registry_follows_log (recs : list (gmap string string)) : Prop :=
  forall name : string,
    st_recent <$> (stations (add_records empty_aggregates recs) !! name) =
      match station_log name empty_aggregates recs with
      | [] => None
      | log => Some (recent_of_log log)
      end.

(** Sample run for the registry: six contacts logged at one station, the
    third one fetched a second time. *)
Definition tent_contact (key call : string) : gmap string string :=
  {[ "FLDPRIMARYKEY" := key; "STATION" := "Tent"; "CALL" := call;
     "BAND" := "20M"; "MODE" := "CW" ]}.

Definition tent_run : list (gmap string string) :=
  [tent_contact "1" "W1AW"; tent_contact "2" "K1ABC"; tent_contact "3" "N0CALL";
   tent_contact "3" "N0CALL"; tent_contact "4" "W2XYZ"; tent_contact "5" "K3DEF";
   tent_contact "6" "W4GHI"; tent_contact "2" "K1ABC"].

(** Sample run for the rates: two contacts on one band, the second
    without a time. *)
Definition timed_20m : gmap string string :=
  {[ "FLDPRIMARYKEY" := "1"; "CALL" := "W1AW"; "BAND" := "20M";
     "DATE" := "01/26"; "TIMEON" := "21:59" ]}.

Definition untimed_20m : gmap string string :=
  {[ "FLDPRIMARYKEY" := "2"; "CALL" := "K1ABC"; "BAND" := "20M" ]}.

Definition mixed_20m_state : Aggregates :=
  add_records empty_aggregates [timed_20m; untimed_20m].

(** A run without any timestamp: three contacts on two bands. *)
Definition untimed_state : Aggregates :=
  add_records empty_aggregates
    [untimed_20m;
     {[ "FLDPRIMARYKEY" := "3"; "CALL" := "N0CALL"; "BAND" := "20M" ]};
     {[ "FLDPRIMARYKEY" := "4"; "CALL" := "W2XYZ"; "BAND" := "40M" ]}].


(** A closing outer delimiter: a text the pattern [</\s*LISTRESPONSE\s*>]
    matches from its first to its last character. *)
Definition is_closing_delimiter (d : string) : Prop :=
  Regex.close_at d = Some "".

(** An outer marker: a text the pattern [<\s*LISTRESPONSE\s*>] matches from
    its first to its last character. *)
Definition is_marker (m : string) : Prop :=
  Regex.marker_at m = Some "".

(** No outer marker occurs in the text. *)
Definition no_marker (c : string) : Prop :=
  Regex.search Regex.marker_at c = false.

(** A text laid out as a preamble followed by chunks, each introduced by
    a marker. *)
Fixpoint framed (pre : string) (chunks : list (string * string)) : string :=
  match chunks with
  | [] => pre
  | (m, c) :: rest => pre ++ m ++ framed c rest
  end.

(** The two samples of the wire framings, and a marker-per-record text
    cut short in its last tag. *)
Definition sample_a : string :=
  "<LISTRESPONSE><CALL>W1AW</CALL><MODE>CW</MODE></LISTRESPONSE>".

Definition sample_b : string :=
  "<LISTRESPONSE><CALL>W1AW</CALL><LISTRESPONSE><CALL>K1ABC</CALL>".

Definition sample_truncated : list (string * string) :=
  [("<LISTRESPONSE>", "<CALL>W1AW</CALL>");
   ("< listresponse >", "<call> K1ABC </call><MODE>CW</MODE>");
   ("<LISTRESPONSE>", "<CALL>N0CA")].

(** ** Further notions: the aggregation state *)

(** An entry of a counter dictionary is well formed when its key is not
    the empty string and its count is at least [lo]. *)
Definition entries_from (lo : Z) (d : gmap string Z) : Prop :=
  map_Forall (fun k v => k <> "" /\ lo <= v) d.

(** The six contact counters, the points per operator and the hourly
    histograms hold well-formed entries only. *)
Definition counters_well_formed (s : Aggregates) : Prop :=
  entries_from 1 (contacts_by_operator s) /\
  entries_from 0 (points_by_operator s) /\
  entries_from 1 (contacts_by_mode s) /\
  entries_from 1 (contacts_by_band s) /\
  entries_from 1 (contacts_by_continent s) /\
  entries_from 1 (contacts_by_state s) /\
  entries_from 1 (contacts_by_country s) /\
  entries_from 1 (qsos_by_hour s) /\
  map_Forall (fun band hour_data =>
                band <> "" /\ hour_data <> ∅ /\ entries_from 1 hour_data)
    (qsos_by_band_hour s).

(** The points follow the contacts: they sum per operator to the total,
    and a contact is worth between 0 and 2 points. *)
Definition points_balanced (s : Aggregates) : Prop :=
  sum_values (points_by_operator s) = total_points s /\
  0 <= total_points s <= 2 * total_contacts s.

(** The counters of the optional dimensions count at most every
    contact. *)
Definition dimensions_bounded (s : Aggregates) : Prop :=
  0 <= sum_values (contacts_by_band s) <= total_contacts s /\
  0 <= sum_values (contacts_by_continent s) <= total_contacts s /\
  0 <= sum_values (contacts_by_state s) <= total_contacts s /\
  0 <= sum_values (contacts_by_country s) <= total_contacts s /\
  0 <= sum_values (qsos_by_hour s) <= total_contacts s.

(** The hourly counts of a band never exceed the contacts of the band. *)
Definition band_hours_bounded (s : Aggregates) : Prop :=
  forall (band : string) (hour_data : gmap string Z),
    qsos_by_band_hour s !! band = Some hour_data ->
    exists n : Z,
      contacts_by_band s !! band = Some n /\ sum_values hour_data <= n.

(** The number of records of a list that carry no integer key. *)
Definition keyless_count (recs : list (gmap string string)) : Z :=
  Z.of_nat (length (filter (fun r => primary_key r = None) recs)).

(** The integer keys of a list of records. *)
Definition keys_of (recs : list (gmap string string)) : gset Z :=
  list_to_set (omap primary_key recs).

(** The registry entry of a station after its log: the fields of the last
    merged record, and the recent list of the log. *)
Definition station_after (name : string) (log : list (gmap string string)) : option Station :=
  match last log with
  | None => None
  | Some r =>
      Some {|
        st_name := name;
        st_operator := operator_of r;
        st_band := band_of r;
        st_mode := mode_of r;
        st_recent := recent_of_log log;
        st_lastUpdate := full_time_of r;
      |}
  end.

(** The non-empty sections of a list of records. *)
Definition sections_of (recs : list (gmap string string)) : gset string :=
  list_to_set (filter (fun sec => sec <> "") (section_of <$> recs)).

(** Sample run: two fetches that overlap, with a record without key
    fetched twice. *)
Definition keyless_record : gmap string string :=
  {[ "CALL" := "W9ZZZ"; "OPERATOR" := "N0CALL"; "MODETEST" := "PH";
     "BAND" := "40M"; "ARRLSECTION" := "IL" ]}.

Definition seed_fetch : list (gmap string string) :=
  [timed_20m; untimed_20m; keyless_record].

Definition tail_fetch : list (gmap string string) :=
  [untimed_20m; timed_20m].

(** ** Further notions: scoring, rates and listings *)

(** The points of a bonus breakdown. *)
Definition breakdown_total (lines : list (string * Z)) : Z :=
  foldr (fun line acc => line.2 + acc) 0 lines.

(** [sorted(items, key=...)] by insertion: [before x y] tells that [x]
    may stand before [y].  An item goes in front of the first item it may
    stand before, so items that compare equal keep the order they came
    in, as in the source's stable sort. *)
Fixpoint insert_by {A} (before : A -> A -> bool) (x : A) (l : list A) : list A :=
  match l with
  | [] => [x]
  | y :: l' => if before x y then x :: l else y :: insert_by before x l'
  end.

Definition sorted_by {A} (before : A -> A -> bool) (items : list A) : list A :=
  foldr (insert_by before) [] items.

(** [key=lambda kv: kv[1], reverse=True]: by descending count. *)
Definition by_count_desc (x y : string * Z) : bool := (y.2 <=? x.2)%Z.

(** [key=lambda x: x[0]]: by ascending key. *)
Definition by_key_asc (x y : string * Z) : bool := String.leb x.1 y.1.

(** The rows of a per-dimension breakdown of [snapshot], from the items
    of the counter in the order the dictionary lists them:
    [sorted(d.items(), key=lambda kv: kv[1], reverse=True)]. *)
Definition sorted_rows (items : list (string * Z)) : list (string * Z) :=
  sorted_by by_count_desc items.

(** [hourly_totals] of [_calculate_rates]. *)
Definition hourly_totals (items : list (string * Z)) : list (string * Z) :=
  sorted_by by_key_asc items.

(** [max(items, key=lambda x: x[1])]: the first item of the largest
    count. *)
Definition max_by_count (first : string * Z) (rest : list (string * Z)) : string * Z :=
  foldl (fun best x => if (best.2 <? x.2)%Z then x else best) first rest.

(** ["bestHour"] of [_calculate_rates], from the items of [qsos_by_hour]:
    [None] for an empty histogram, and when the best key is the empty
    string. *)
Definition best_hour (items : list (string * Z)) : option (string * Z) :=
  match items with
  | [] => None
  | first :: rest =>
      let best := max_by_count first rest in
      if truthy best.1 then Some best else None
  end.

(** [round(x)] of a float: the integer nearest to its exact value, ties
    to even.  (An infinite or undefined [x] makes the interpreter raise;
    the quotient of a count by a positive count is neither.) *)
Definition py_round (x : spec_float) : Z :=
  match x with
  | S754_finite s m e =>
      let n := PyFloat.round_half_even (Zpos m) e in
      if s then - n else n
  | _ => 0
  end.

(** [round(total_qsos / max(num_hours, 1))] of [_calculate_rates]. *)
Definition average_rate (s : Aggregates) : Z :=
  let total_qsos := Z.of_nat (length (all_qso_times s)) in
  let num_hours := if decide (qsos_by_hour s = ∅) then 1 else len (qsos_by_hour s) in
  py_round (PyFloat.truediv total_qsos (Z.max num_hours 1)).

(** ["rate20min"] and ["rate60min"] of [_calculate_rates]. *)
Definition recent_rate (window factor : Z) (s : Aggregates) : Z :=
  match all_qso_times s with
  | [] => 0
  | _ =>
      let n := Z.of_nat (length (all_qso_times s)) in
      let recent := Z.min n window in
      if (window <=? n)%Z then recent * factor else average_rate s
  end.

Definition rate_20min : Aggregates -> Z := recent_rate 20 3.
Definition rate_60min : Aggregates -> Z := recent_rate 60 1.

(** ["totalHours"] of [_calculate_rates]. *)
Definition total_hours (s : Aggregates) : Z := len (qsos_by_hour s).

(** A configuration with every bonus claimed and more messages than
    count. *)
Definition full_config : ScoringConfig := {|
  field_day_class := Some "9A";
  emergency_power := true;
  media_publicity := true;
  public_location := true;
  public_information_table := true;
  nts_message_originated := 25;
  nts_message_handled := 12;
  satellite_qso := true;
  w1aw_bulletin := true;
  educational_activity := true;
  social_media := true;
  youth_participation := true;
  site_visit_official := true;
|}.

(** ** Further notions: the parser and its callers *)

(** The characters of a key of a parsed record: [A-Z], [0-9] and [_]. *)
Definition is_key_char (c : ascii) : bool :=
  is_upper c || is_digit c || eqb_char c "_".

(** A field of a parsed record is well formed: the key is a non-empty
    run of key characters other than the two structural tags, and the
    value has no white space at either end. *)
Definition well_formed_field (k v : string) : Prop :=
  k <> "" /\ all_chars is_key_char k = true /\ (k ∉ structural_tags) /\ strip v = v.

(** [build_list_cmd(n, include_all)]; [int(n)] of an integer is that
    integer. *)
Definition build_list_cmd (n : Z) (include_all : bool) : string :=
  if include_all
  then "<CMD><LIST><INCLUDEALL><VALUE>" ++ str_of_int n ++ "</VALUE></LIST></CMD>"
  else "<CMD><LIST><VALUE>" ++ str_of_int n ++ "</VALUE></LIST></CMD>".

(** [sub in s] *)
Fixpoint is_prefix (p s : string) : bool :=
  match p with
  | EmptyString => true
  | String a p' =>
      match s with
      | String b s' => eqb_char a b && is_prefix p' s'
      | EmptyString => false
      end
  end.

Fixpoint contains (sub s : string) : bool :=
  is_prefix sub s ||
  match s with
  | EmptyString => false
  | String _ s' => contains sub s'
  end.

(** The entries of the diagnostics dictionary that [_do_list] computes
    from the decoded text and the parsed records. *)
Record ListDiag := {
  recordsParsed : nat;
  hasListResponseMarker : bool;
  hasListResponseClose : bool;
  sampleFields : gset string;
}.

(** The parsing step of [_do_list]: the records, and the diagnostics about
    them (the keys of the first record are kept as a set). *)
Definition do_list_parse (text : string) : list (gmap string string) * ListDiag :=
  let recs := parse_cmd_records text in
  (recs,
   {| recordsParsed := length recs;
      hasListResponseMarker := contains "<LISTRESPONSE" (upper text);
      hasListResponseClose := contains "</LISTRESPONSE>" (upper text);
      sampleFields := match recs with r :: _ => dom r | [] => ∅ end |}).

(** One fetch of [seed] or [poll_once], from the decoded text of the
    response: parse, then merge every record. *)
Definition fetch_and_merge (s : Aggregates) (text : string) : Aggregates :=
  add_records s (fst (do_list_parse text)).

(** * Properties *)

(** ** The embedding on sample inputs *)

Example strip_sample : strip "  W1AW  " = "W1AW" /\ strip "   " = "".
Proof. split; reflexivity. Qed.

Example split_sample :
  split_on "/" "01/26 21:59" = ["01"; "26 21:59"] /\
  split_ws "26 21:59" = ["26"; "21:59"] /\
  split_ws "  " = [].
Proof. repeat split; reflexivity. Qed.

Example zfill2_sample :
  zfill2 "7" = "07" /\ zfill2 "" = "00" /\ zfill2 "-" = "-0" /\ zfill2 "012" = "012".
Proof. repeat split; reflexivity. Qed.

Example py_int_sample :
  py_int "12" = Some 12 /\ py_int " -007 " = Some (-7) /\ py_int "1_000" = Some 1000 /\
  py_int "1__0" = None /\ py_int "12a" = None /\ py_int "" = None.
Proof. repeat split; reflexivity. Qed.

Example tag_pairs_sample :
  tag_pairs "<call>W1AW</CALL><x><MODE> CW </MODE>" =
    [("call", "W1AW"); ("MODE", " CW ")].
Proof. reflexivity. Qed.

Example marker_parts_sample :
  marker_parts "junk< listresponse ><A>1</A><LISTRESPONSE>" =
    ["junk"; "<A>1</A>"; ""].
Proof. reflexivity. Qed.

Example time_bucket_sample :
  time_bucket "01/26" "21:59" = Some "2026-01-26-21" /\
  time_bucket "1/26 21:59" "21:59:59" = Some "2026-01-26-21" /\
  time_bucket "20260126" "2159" = Some "2026-01-26-21" /\
  time_bucket "2026-01-26" "2159" = None /\
  time_bucket "01/26" "9" = None /\
  hour_key "01/" "2159" = Raised.
Proof. repeat split; reflexivity. Qed.

(** [round(3 / 20, 1)] is 0.1 (the float 3/20 lies below 0.15),
    [round(1 / 4, 1)] is 0.2 (an exact tie goes to the even digit),
    [round(9 / 20, 1)] is 0.5 and [round(100 / 24, 1)] is 4.2; a float is
    named here by a quotient of integers it is nearest to. *)
Example round1_sample :
  PyFloat.round1 (PyFloat.truediv 3 20) = PyFloat.truediv 1 10 /\
  PyFloat.round1 (PyFloat.truediv 1 4) = PyFloat.truediv 1 5 /\
  PyFloat.round1 (PyFloat.truediv 9 20) = PyFloat.truediv 1 2 /\
  PyFloat.round1 (PyFloat.truediv 100 24) = PyFloat.truediv 42 10 /\
  PyFloat.round1 (PyFloat.truediv 1 24) = S754_zero false.
Proof. repeat split; reflexivity. Qed.

(** ** The mode-points classifier *)

(** C9. [points_from_modetest] gives 1 for "PH", 2 for "CW" and for "DIG",
    and 0 for the empty string and for every other value; the input is
    uppercased before it is compared. *)
Theorem points_from_modetest_table :
  (points_from_modetest "PH" = 1 /\ points_from_modetest "CW" = 2 /\
   points_from_modetest "DIG" = 2 /\ points_from_modetest "" = 0) /\
  forall modetest : string,
    points_from_modetest modetest =
      if decide (upper modetest = "PH") then 1
      else if decide (upper modetest = "CW" \/ upper modetest = "DIG") then 2
      else 0.
Proof.
  split; [repeat split; reflexivity |].
  intros modetest. unfold points_from_modetest, str_or.
  assert (Hin : match modetest with
                | EmptyString => EmptyString
                | String c s => String c s
                end = modetest) by (destruct modetest; reflexivity).
  assert (Heq : upper match Some modetest with
                      | Some (String c s) => String c s
                      | _ => EmptyString
                      end = upper modetest) by (cbn; rewrite Hin; reflexivity).
  rewrite Heq.
  destruct (String.eqb_spec (upper modetest) "PH") as [HPH | HPH].
  { rewrite decide_True by assumption. reflexivity. }
  rewrite decide_False by assumption.
  destruct (String.eqb_spec (upper modetest) "CW") as [HCW | HCW].
  { rewrite decide_True by (left; assumption). reflexivity. }
  destruct (String.eqb_spec (upper modetest) "DIG") as [HDIG | HDIG].
  { rewrite decide_True by (right; assumption). reflexivity. }
  rewrite decide_False by (intros [? | ?]; contradiction). reflexivity.
Qed.

(** ** Scoring *)

(** [int] of a one-digit string is the value of the digit: the conversion
    in the class multiplier cannot raise. *)
Lemma py_int_digit (c : ascii) :
  is_digit c = true -> py_int (String c EmptyString) = Some (digit_val c).
Proof.
  destruct c as [[] [] [] [] [] [] [] []]; intros H; vm_compute in H;
    try discriminate H; vm_compute; reflexivity.
Qed.

(** The multiplier the source computes from a class code is the leading
    digit of the code, and 1 when there is none. *)
Lemma class_multiplier_leading_digit (fd_class : string) :
  class_multiplier_of fd_class = default 1 (leading_digit fd_class).
Proof.
  destruct fd_class as [| c rest]; [reflexivity |].
  destruct c as [[] [] [] [] [] [] [] []]; vm_compute; reflexivity.
Qed.

Lemma bonus_class_multiplier (config : ScoringConfig) :
  classMultiplier (_calculate_field_day_bonus config) =
    spec_class_multiplier (field_day_class config).
Proof.
  unfold _calculate_field_day_bonus; cbn [classMultiplier].
  rewrite class_multiplier_leading_digit.
  destruct (field_day_class config); reflexivity.
Qed.

Lemma bonus_power_multiplier (config : ScoringConfig) :
  powerMultiplier (_calculate_field_day_bonus config) =
    spec_power_multiplier (emergency_power config).
Proof. reflexivity. Qed.


(** ** Deduplication *)

Lemma add_record_duplicate (s : Aggregates) (r : gmap string string) (k : Z) :
  primary_key r = Some k -> k ∈ seen_keys s -> add_record s r = s.
Proof.
  intros Hk Hin. unfold add_record, is_duplicate. rewrite Hk.
  rewrite bool_decide_eq_true_2 by assumption. reflexivity.
Qed.

Lemma seen_keys_merge (s : Aggregates) (r : gmap string string) (k : Z) :
  primary_key r = Some k -> k ∈ seen_keys (merge s r).
Proof. intros Hk. unfold merge; cbn. rewrite Hk. set_solver. Qed.

Lemma seen_keys_add_record (s : Aggregates) (r : gmap string string) (k : Z) :
  primary_key r = Some k -> k ∈ seen_keys (add_record s r).
Proof.
  intros Hk. unfold add_record, is_duplicate. rewrite Hk.
  case_bool_decide as Hin; [assumption | by apply seen_keys_merge].
Qed.

(** A key that has been seen stays seen. *)
Lemma seen_keys_mono (s : Aggregates) (r : gmap string string) :
  seen_keys s ⊆ seen_keys (add_record s r).
Proof.
  unfold add_record. destruct (is_duplicate s r); [done |].
  unfold merge; cbn. destruct (primary_key r); set_solver.
Qed.

Lemma seen_keys_mono_records (recs : list (gmap string string)) (s : Aggregates) :
  seen_keys s ⊆ seen_keys (add_records s recs).
Proof.
  revert s. induction recs as [| r recs IH]; intros s; cbn; [done |].
  etrans; [apply (seen_keys_mono s r) | apply IH].
Qed.

(** C1, amended. For a record whose primary-key field converts to an
    integer: once the record has been merged, merging it again, at once or
    after any further records, leaves the whole state (hence every total
    and counter) as it is; and a record whose key is in the set of seen
    keys is discarded with the state untouched. *)
Theorem add_record_idempotent (s : Aggregates) (r : gmap string string) (k : Z) :
  primary_key r = Some k ->
  add_record (add_record s r) r = add_record s r /\
  (forall recs : list (gmap string string),
     add_record (add_records (add_record s r) recs) r =
       add_records (add_record s r) recs) /\
  (k ∈ seen_keys s -> add_record s r = s).
Proof.
  intros Hk. split; [| split].
  - apply (add_record_duplicate _ _ k Hk), seen_keys_add_record, Hk.
  - intros recs. apply (add_record_duplicate _ _ k Hk).
    apply (seen_keys_mono_records recs), seen_keys_add_record, Hk.
  - apply add_record_duplicate, Hk.
Qed.

Lemma add_record_idempotent_witness :
  let s1 := add_record empty_aggregates keyed_record in
  primary_key keyed_record = Some 12 /\
  12 ∈ seen_keys s1 /\
  add_record s1 keyed_record = s1 /\
  add_record (add_records s1 [non_integer_key_record]) keyed_record =
    add_records s1 [non_integer_key_record] /\
  total_contacts (add_record s1 keyed_record) = 1.
Proof.
  intros s1.
  pose proof (add_record_idempotent empty_aggregates keyed_record 12 eq_refl)
    as (Htwice & Hlater & _).
  assert (Hseen : 12 ∈ seen_keys s1)
    by (apply elem_of_union_l, elem_of_singleton; reflexivity).
  pose proof (add_record_idempotent s1 keyed_record 12 eq_refl)
    as (_ & _ & Hseen_again).
  split; [reflexivity |]. split; [exact Hseen |].
  split; [exact Htwice |]. split; [exact (Hlater [non_integer_key_record]) |].
  rewrite (Hseen_again Hseen). reflexivity.
Defined.

(** C1 as stated fails: a record whose key field is present but is not an
    integer literal is counted each time it is merged. *)
Lemma non_integer_key_counted_twice :
  carries_primary_key non_integer_key_record /\
  total_contacts (add_record empty_aggregates non_integer_key_record) = 1 /\
  total_contacts
    (add_record (add_record empty_aggregates non_integer_key_record)
       non_integer_key_record) = 2 /\
  total_points
    (add_record (add_record empty_aggregates non_integer_key_record)
       non_integer_key_record) <>
  total_points (add_record empty_aggregates non_integer_key_record).
Proof.
  split; [| split; [| split]].
  - exists "a"%char, "bc". reflexivity.
  - reflexivity.
  - reflexivity.
  - vm_compute. discriminate.
Qed.

(** ** Counters and totals *)

Lemma sum_values_empty : sum_values ∅ = 0.
Proof. apply map_fold_empty. Qed.

Lemma sum_values_insert_fresh (k : string) (v : Z) (d : gmap string Z) :
  d !! k = None -> sum_values (<[k := v]> d) = v + sum_values d.
Proof.
  intros Hk. unfold sum_values.
  apply (map_fold_insert_L (fun _ v acc => v + acc)); [intros; lia | assumption].
Qed.

Lemma sum_values_insert (k : string) (v : Z) (d : gmap string Z) :
  sum_values (<[k := v]> d) = sum_values d - default 0 (d !! k) + v.
Proof.
  destruct (d !! k) as [x |] eqn:Hk; cbn.
  - rewrite <- (insert_delete_eq d k v).
    rewrite <- (insert_id d k x Hk) at 2.
    rewrite <- (insert_delete_eq d k x).
    rewrite !sum_values_insert_fresh by apply lookup_delete_eq. lia.
  - rewrite sum_values_insert_fresh by assumption. lia.
Qed.

(** Incrementing one bucket adds the increment to the sum of the
    buckets. *)
Lemma sum_values_bump (k : string) (n : Z) (d : gmap string Z) :
  sum_values (bump k n d) = sum_values d + n.
Proof. unfold bump. rewrite sum_values_insert. lia. Qed.

Lemma contacts_balanced_add_record (s : Aggregates) (r : gmap string string) :
  contacts_balanced s -> contacts_balanced (add_record s r).
Proof.
  intros [Hop Hmode]. unfold add_record.
  destruct (is_duplicate s r); [split; assumption |].
  unfold contacts_balanced, merge; cbn.
  rewrite !sum_values_bump. lia.
Qed.

Lemma contacts_balanced_add_records (recs : list (gmap string string)) (s : Aggregates) :
  contacts_balanced s -> contacts_balanced (add_records s recs).
Proof.
  revert s. induction recs as [| r recs IH]; intros s Hs; cbn; [assumption |].
  apply IH, contacts_balanced_add_record, Hs.
Qed.

(** The operator bucket of a record without operator fields is the
    sentinel. *)
Lemma operator_of_missing (r : gmap string string) :
  r !! "FLDOPERATOR" = None -> r !! "OPERATOR" = None -> operator_of r = "UNKNOWN".
Proof. intros H1 H2. unfold operator_of. rewrite H1, H2. reflexivity. Qed.

(** C2. After any sequence of [add_record] calls on the empty state, the
    per-operator contact counts sum to the total contact count, and so do
    the per-mode counts: a record that is merged adds one to the total, to
    one operator bucket and to one mode bucket, and a record without
    operator field goes to the bucket "UNKNOWN". *)
Theorem contacts_by_operator_and_mode_sum :
  (forall recs : list (gmap string string),
     let s := add_records empty_aggregates recs in
     sum_values (contacts_by_operator s) = total_contacts s /\
     sum_values (contacts_by_mode s) = total_contacts s) /\
  (forall (s : Aggregates) (r : gmap string string),
     total_contacts (merge s r) = total_contacts s + 1 /\
     contacts_by_operator (merge s r) = bump (operator_of r) 1 (contacts_by_operator s) /\
     contacts_by_mode (merge s r) = bump (mode_of r) 1 (contacts_by_mode s)) /\
  (forall r : gmap string string,
     r !! "FLDOPERATOR" = None -> r !! "OPERATOR" = None ->
     operator_of r = "UNKNOWN").
Proof.
  split; [| split].
  - intros recs. apply (contacts_balanced_add_records recs empty_aggregates).
    split; apply sum_values_empty.
  - intros s r. repeat split.
  - apply operator_of_missing.
Qed.

Lemma contacts_by_operator_and_mode_sum_witness :
  operator_of keyed_record = "UNKNOWN" /\
  contacts_by_operator (add_records empty_aggregates [keyed_record; keyed_record])
    = {[ "UNKNOWN" := 1 ]}.
Proof.
  split; [| reflexivity].
  exact (proj2 (proj2 contacts_by_operator_and_mode_sum) keyed_record eq_refl eq_refl).
Defined.

(** ** Hourly histogram *)

Lemma hours_balanced_add_record (s : Aggregates) (r : gmap string string) :
  hours_balanced s -> hours_balanced (add_record s r).
Proof.
  unfold hours_balanced, add_record. intros Hs.
  destruct (is_duplicate s r); [assumption |].
  unfold merge; cbn.
  destruct (time_bucket (qso_date_of r) (qso_time_of r)) as [key |]; [| assumption].
  rewrite sum_values_bump, length_app; cbn. lia.
Qed.

Lemma hours_balanced_add_records (recs : list (gmap string string)) (s : Aggregates) :
  hours_balanced s -> hours_balanced (add_records s recs).
Proof.
  revert s. induction recs as [| r recs IH]; intros s Hs; cbn; [assumption |].
  apply IH, hours_balanced_add_record, Hs.
Qed.

(** What one merge does to the histogram and to the list of instants: a
    successful derivation adds one to one bucket and one instant, a failed
    one leaves both as they are. *)
Lemma merge_hour_step (s : Aggregates) (r : gmap string string) :
  match time_bucket (qso_date_of r) (qso_time_of r) with
  | Some key =>
      qsos_by_hour (merge s r) = bump key 1 (qsos_by_hour s) /\
      length (all_qso_times (merge s r)) = S (length (all_qso_times s))
  | None =>
      qsos_by_hour (merge s r) = qsos_by_hour s /\
      all_qso_times (merge s r) = all_qso_times s
  end.
Proof.
  unfold merge; cbn.
  destruct (time_bucket (qso_date_of r) (qso_time_of r)); split; try reflexivity.
  rewrite length_app; cbn. lia.
Qed.

(** C10. After any sequence of [add_record] calls on the empty state, the
    counts of the overall hourly histogram sum to the length of the list of
    time instants: a merge with a derived hour bucket adds one to one
    bucket and appends one instant, a merge without one does neither. *)
Theorem qsos_by_hour_sum :
  (forall recs : list (gmap string string),
     let s := add_records empty_aggregates recs in
     sum_values (qsos_by_hour s) = Z.of_nat (length (all_qso_times s))) /\
  (forall (s : Aggregates) (r : gmap string string),
     match time_bucket (qso_date_of r) (qso_time_of r) with
     | Some key =>
         qsos_by_hour (merge s r) = bump key 1 (qsos_by_hour s) /\
         length (all_qso_times (merge s r)) = S (length (all_qso_times s))
     | None =>
         qsos_by_hour (merge s r) = qsos_by_hour s /\
         all_qso_times (merge s r) = all_qso_times s
     end).
Proof.
  split; [| apply merge_hour_step].
  intros recs. apply (hours_balanced_add_records recs empty_aggregates).
  unfold hours_balanced; cbn. apply sum_values_empty.
Qed.

(** ** Records without a usable timestamp *)

(** The cases in which a record has no hour bucket: the date or the time
    is empty, the derivation raises, or it ends without month, day or
    hour. *)
Lemma time_bucket_none (qso_date qso_time : string) :
  time_bucket qso_date qso_time = None <->
  qso_date = "" \/ qso_time = "" \/
  hour_key qso_date qso_time = Raised \/
  hour_key qso_date qso_time = Returned None.
Proof.
  unfold time_bucket. split.
  - destruct qso_date as [| c d]; [by left |].
    destruct qso_time as [| c' t]; [by right; left |].
    cbn [truthy is_empty negb andb].
    destruct (hour_key (String c d) (String c' t)) as [[k |] |];
      [discriminate | by right; right; right | by right; right; left].
  - intros [-> | [-> | [-> | ->]]]; try reflexivity.
    + by destruct qso_date.
    + by destruct (truthy qso_date && truthy qso_time).
    + by destruct (truthy qso_date && truthy qso_time).
Qed.

Section SameButTime.
Variables r r' : gmap string string.
Hypothesis Hsame : same_but_time r r'.

Local Ltac by_field d := unfold d; rewrite ?Hsame
  by (apply (bool_decide_unpack _); vm_compute; reflexivity); reflexivity.

Lemma same_primary_key : primary_key r = primary_key r'.
Proof. unfold primary_key. by_field pk_raw. Qed.

Lemma same_operator : operator_of r = operator_of r'.
Proof. by_field operator_of. Qed.

Lemma same_modetest : modetest_of r = modetest_of r'.
Proof. by_field modetest_of. Qed.

Lemma same_mode : mode_of r = mode_of r'.
Proof. by_field mode_of. Qed.

Lemma same_field (k : string) : k ∉ time_fields -> field k r = field k r'.
Proof. intros Hk. unfold field. rewrite (Hsame k Hk). reflexivity. Qed.

Lemma same_section : section_of r = section_of r'.
Proof. by_field section_of. Qed.

Lemma same_station : station_of r = station_of r'.
Proof. unfold station_of. rewrite same_operator. by_field station_of. Qed.

End SameButTime.

Lemma not_time_field (k : string) :
  bool_decide (k ∉ time_fields) = true -> k ∉ time_fields.
Proof. apply bool_decide_eq_true_1. Qed.

(** Two records that differ in their time fields only are discarded
    together. *)
Lemma same_is_duplicate (s : Aggregates) (r r' : gmap string string) :
  same_but_time r r' -> is_duplicate s r = is_duplicate s r'.
Proof.
  intros H. unfold is_duplicate. rewrite (same_primary_key r r' H). reflexivity.
Qed.

Lemma same_counters_merge (s : Aggregates) (r r' : gmap string string) :
  same_but_time r r' -> counters (merge s r) = counters (merge s r').
Proof.
  intros H. unfold counters, merge; cbn.
  rewrite (same_primary_key r r' H), (same_operator r r' H),
    (same_modetest r r' H), (same_mode r r' H), (same_section r r' H).
  unfold band_of, continent_of, state_of, country_of.
  rewrite !(same_field r r' H) by (apply not_time_field; reflexivity).
  reflexivity.
Qed.

Lemma same_station_untimed (r r' : gmap string string) (o : option Station) :
  same_but_time r r' ->
  station_untimed (update_station r (default (new_station r) o)) =
  station_untimed (update_station r' (default (new_station r') o)).
Proof.
  intros H. unfold station_untimed, update_station, qso_entry_of; cbn.
  unfold band_of, call_of.
  rewrite (same_operator r r' H), (same_mode r r' H).
  rewrite !(same_field r r' H) by (apply not_time_field; reflexivity).
  destruct o as [st |]; cbn; [reflexivity |].
  rewrite (same_station r r' H). reflexivity.
Qed.

Lemma same_stations_merge (s : Aggregates) (r r' : gmap string string) :
  same_but_time r r' ->
  station_untimed <$> stations (merge s r) =
  station_untimed <$> stations (merge s r').
Proof.
  intros H. unfold merge; cbn. unfold upsert_station.
  rewrite !fmap_insert, (same_station r r' H).
  f_equal. apply same_station_untimed, H.
Qed.


Lemma good_date_same_but_time : same_but_time bad_date_record good_date_record.
Proof.
  intros k Hk. unfold good_date_record.
  rewrite lookup_insert_ne; [reflexivity |].
  intros <-. apply Hk. unfold time_fields. set_solver.
Qed.


(** ** The station registry *)

Lemma add_records_snoc (s : Aggregates) (recs : list (gmap string string)) (r : gmap string string) :
  add_records s (recs ++ [r])%list = add_record (add_records s recs) r.
Proof. unfold add_records. apply foldl_snoc. Qed.

Lemma accepted_from_snoc (recs : list (gmap string string)) (s : Aggregates) (r : gmap string string) :
  accepted_from s (recs ++ [r])%list =
    (accepted_from s recs ++
       if is_duplicate (add_records s recs) r then [] else [r])%list.
Proof.
  revert s. induction recs as [| r0 recs IH]; intros s; cbn.
  - destruct (is_duplicate s r); reflexivity.
  - unfold add_record. destruct (is_duplicate s r0); rewrite IH; reflexivity.
Qed.

Lemma recent_of_log_snoc (log : list (gmap string string)) (r : gmap string string) :
  recent_of_log (log ++ [r])%list = take 5 (qso_entry_of r :: recent_of_log log).
Proof.
  unfold recent_of_log. rewrite fmap_app, reverse_app; cbn.
  f_equal. rewrite take_take. reflexivity.
Qed.

Lemma recent_of_log_length (log : list (gmap string string)) :
  (length (recent_of_log log) <= 5)%nat.
Proof. unfold recent_of_log. rewrite length_take. lia. Qed.

(** The newest entry of a non-empty log is the summary of its last
    record. *)
Lemma recent_of_log_head (log : list (gmap string string)) (r : gmap string string) :
  last log = Some r -> recent_of_log log !! 0%nat = Some (qso_entry_of r).
Proof.
  intros Hlast. destruct (last_Some log r) as [[log' ->] _]; [assumption |].
  rewrite recent_of_log_snoc. reflexivity.
Qed.

Lemma registry_follows_log_all (recs : list (gmap string string)) :
  registry_follows_log recs.
Proof.
  induction recs as [| r recs IH] using rev_ind; intros name.
  - reflexivity.
  - specialize (IH name). unfold station_log in *.
    rewrite add_records_snoc, accepted_from_snoc. unfold add_record.
    set (s := add_records empty_aggregates recs) in *.
    destruct (is_duplicate s r).
    { rewrite app_nil_r. exact IH. }
    rewrite filter_app. cbn [stations merge]. unfold upsert_station.
    destruct (decide (station_of r = name)) as [Heq | Hne].
    + rewrite filter_cons_True, filter_nil by assumption.
      rewrite Heq, lookup_insert_eq; cbn [fmap option_fmap option_map st_recent update_station].
      set (log := filter (fun r0 => station_of r0 = name) (accepted_from empty_aggregates recs)) in *.
      assert (Hold : st_recent (default (new_station r) (stations s !! name)) = recent_of_log log).
      { destruct (stations s !! name) as [st |]; cbn in IH |- *.
        - destruct log; [discriminate IH | by injection IH].
        - destruct log; [reflexivity | discriminate IH]. }
      rewrite Hold, <- recent_of_log_snoc.
      destruct log; reflexivity.
    + rewrite filter_cons_False, filter_nil, app_nil_r by assumption.
      rewrite lookup_insert_ne by assumption. exact IH.
Qed.

(** C5. After any sequence of [add_record] calls on the empty state, every
    station of the registry has at most 5 recent contacts, its entry 0 is
    the summary of the last record that was merged (not discarded) for
    that station, and the whole list holds the summaries of the station's
    merged records, newest first. *)
Theorem station_recent_contacts
    (recs : list (gmap string string)) (name : string) (st : Station) :
  stations (add_records empty_aggregates recs) !! name = Some st ->
  (length (st_recent st) <= 5)%nat /\
  (exists r : gmap string string,
     last (station_log name empty_aggregates recs) = Some r /\
     st_recent st !! 0%nat = Some (qso_entry_of r)) /\
  st_recent st = recent_of_log (station_log name empty_aggregates recs).
Proof.
  intros Hst. pose proof (registry_follows_log_all recs name) as H.
  rewrite Hst in H; cbn [fmap option_fmap option_map] in H.
  destruct (station_log name empty_aggregates recs) as [| r0 log] eqn:Hlog;
    [discriminate H |].
  injection H as H. rewrite H. split; [apply recent_of_log_length |].
  split; [| reflexivity].
  destruct (last (r0 :: log)) as [r |] eqn:Hlast.
  - exists r. split; [reflexivity | by apply recent_of_log_head].
  - apply last_None in Hlast. discriminate Hlast.
Qed.

Lemma station_recent_contacts_witness :
  exists st : Station,
    stations (add_records empty_aggregates tent_run) !! "Tent" = Some st /\
    (length (st_recent st) <= 5)%nat /\
    st_recent st !! 0%nat = Some (qso_entry_of (tent_contact "6" "W4GHI")).
Proof.
  eexists. split; [reflexivity |].
  pose proof (station_recent_contacts tent_run "Tent" _ eq_refl)
    as (Hlen & (r & Hlast & Hhead) & _).
  split; [exact Hlen |].
  vm_compute in Hlast. injection Hlast as <-. exact Hhead.
Defined.

(** ** Band rates *)

Lemma len_pos (hour_data : gmap string Z) :
  hour_data <> ∅ -> (0 <? len hour_data)%Z = true.
Proof.
  intros Hne. apply Z.ltb_lt. unfold len.
  apply map_size_non_empty_iff in Hne. lia.
Qed.

Lemma band_rate_non_empty (hour_data : gmap string Z) :
  hour_data <> ∅ ->
  band_rate hour_data = Some (rate_of (sum_values hour_data) (len hour_data)).
Proof.
  intros Hne. unfold band_rate.
  rewrite decide_False by assumption. rewrite len_pos by assumption. reflexivity.
Qed.

(** The first loop leaves [band_rates] empty exactly when no band has an
    hourly entry. *)
Lemma omap_band_rate_empty (d : gmap string (gmap string Z)) :
  omap band_rate d = ∅ <->
  forall band hour_data, d !! band = Some hour_data -> hour_data = ∅.
Proof.
  rewrite map_empty. split.
  - intros H band hour_data Hb. specialize (H band).
    rewrite lookup_omap, Hb in H; cbn in H.
    destruct (decide (hour_data = ∅)) as [| Hne]; [assumption |].
    rewrite band_rate_non_empty in H by assumption. discriminate H.
  - intros H band. rewrite lookup_omap.
    destruct (d !! band) as [hour_data |] eqn:Hb; [| reflexivity]; cbn.
    unfold band_rate. rewrite decide_True by (eapply H, Hb). reflexivity.
Qed.

(** C3, amended. In the rate statistics of a snapshot, the rate of a band
    with at least one hourly-histogram entry is the sum of that band's
    hourly counts (its contacts with a derived hour bucket) divided by the
    number of its hour buckets, rounded to one decimal; and when no band
    has an hourly entry while per-band contact counts exist, the rate of
    every band is its contact count divided by 24, rounded to one
    decimal. *)
Theorem band_rates_of_snapshot (s : Aggregates) (config : option ScoringConfig) :
  (forall (band : string) (hour_data : gmap string Z),
     qsos_by_band_hour s !! band = Some hour_data ->
     hour_data <> ∅ ->
     bandRates (snapshot s config) !! band =
       Some (rate_of (sum_values hour_data) (len hour_data))) /\
  ((forall (band : string) (hour_data : gmap string Z),
      qsos_by_band_hour s !! band = Some hour_data -> hour_data = ∅) ->
   contacts_by_band s <> ∅ ->
   forall band : string,
     bandRates (snapshot s config) !! band =
       (fun count => rate_of count 24) <$> (contacts_by_band s !! band)).
Proof.
  cbn [bandRates snapshot]. unfold band_rates. split.
  - intros band hour_data Hb Hne.
    assert (Hrate : omap band_rate (qsos_by_band_hour s) !! band =
                    Some (rate_of (sum_values hour_data) (len hour_data))).
    { rewrite lookup_omap, Hb; cbn. by apply band_rate_non_empty. }
    destruct (decide (omap band_rate (qsos_by_band_hour s) = ∅)) as [He |];
      [| exact Hrate].
    rewrite He, lookup_empty in Hrate. discriminate Hrate.
  - intros Hnone Hbands band.
    rewrite decide_True by (by apply omap_band_rate_empty).
    rewrite decide_False by assumption.
    apply lookup_fmap.
Qed.

Lemma band_rates_of_snapshot_witness :
  bandRates (snapshot mixed_20m_state None) !! "20M" = Some (rate_of 1 1) /\
  bandRates (snapshot untimed_state None) !! "20M" = Some (rate_of 2 24) /\
  bandRates (snapshot untimed_state None) !! "40M" = Some (rate_of 1 24).
Proof.
  split; [| split].
  - assert (Hne : ({[ "2026-01-26-21" := 1 ]} : gmap string Z) <> ∅)
      by apply insert_non_empty.
    pose proof (proj1 (band_rates_of_snapshot mixed_20m_state None)
                  "20M" {[ "2026-01-26-21" := 1 ]} eq_refl Hne) as H.
    vm_compute in H |- *. exact H.
  - rewrite (proj2 (band_rates_of_snapshot untimed_state None)); [reflexivity | |].
    + intros band hour_data H. vm_compute in H. discriminate H.
    + apply insert_non_empty.
  - rewrite (proj2 (band_rates_of_snapshot untimed_state None)); [reflexivity | |].
    + intros band hour_data H. vm_compute in H. discriminate H.
    + apply insert_non_empty.
Defined.

(** C3 as stated fails when a band has contacts without a timestamp: with
    two contacts on a band, one of them timed, the reported rate is 1.0
    and not the band's two contacts over its one hour. *)
Lemma band_rate_ignores_untimed_contacts :
  contacts_by_band mixed_20m_state !! "20M" = Some 2 /\
  qsos_by_band_hour mixed_20m_state !! "20M" = Some {[ "2026-01-26-21" := 1 ]} /\
  bandRates (snapshot mixed_20m_state None) !! "20M" = Some (rate_of 1 1) /\
  bandRates (snapshot mixed_20m_state None) !! "20M" <> Some (rate_of 2 1).
Proof.
  repeat split; try reflexivity.
  vm_compute. discriminate.
Qed.

(** ** The response parser *)

#[local] Arguments String.append !_ _ / : simpl nomatch.

Lemma string_app_cons (c : ascii) (s t : string) :
  String c s ++ t = String c (s ++ t).
Proof. reflexivity. Qed.

Lemma string_app_nil_r (s : string) : s ++ "" = s.
Proof.
  induction s as [| c s IH]; [reflexivity |].
  rewrite !string_app_cons; cbn. f_equal. exact IH.
Qed.

Lemma string_length_app (s t : string) :
  String.length (s ++ t) = (String.length s + String.length t)%nat.
Proof.
  induction s as [| c s IH]; [reflexivity |].
  rewrite !string_app_cons; cbn. f_equal. exact IH.
Qed.

(** *** Matching at the start of a longer text *)

Lemma eat_ci_app (lit s r t : string) :
  Regex.eat_ci lit s = Some r -> Regex.eat_ci lit (s ++ t) = Some (r ++ t).
Proof.
  revert s. induction lit as [| a lit IH]; intros s; cbn.
  - intros [= ->]. reflexivity.
  - destruct s as [| b s]; cbn; [discriminate |].
    destruct (eqb_char_ci a b); [apply IH | discriminate].
Qed.

Lemma eat_ci_some_nonempty (lit s r : string) :
  lit <> "" -> Regex.eat_ci lit s = Some r -> s <> "".
Proof. intros Hlit H ->. destruct lit; [contradiction | discriminate H]. Qed.

Lemma lstrip_app_nonempty (p : ascii -> bool) (s t : string) :
  lstrip_by p s <> "" -> lstrip_by p (s ++ t) = lstrip_by p s ++ t.
Proof.
  induction s as [| c s IH]; cbn; [contradiction |].
  destruct (p c); [apply IH | reflexivity].
Qed.

(** A delimiter matched at the start of a text is matched the same way
    when the text goes on. *)
Lemma delim_at_app (open s r t : string) :
  Regex.delim_at open s = Some r -> Regex.delim_at open (s ++ t) = Some (r ++ t).
Proof.
  unfold Regex.delim_at.
  destruct (Regex.eat_ci open s) as [s1 |] eqn:H1; [| discriminate].
  rewrite (eat_ci_app _ _ _ t H1).
  destruct (Regex.eat_ci "LISTRESPONSE" (lstrip_by is_space s1)) as [s2 |] eqn:H2;
    [| discriminate].
  intros H3.
  rewrite lstrip_app_nonempty by (eapply eat_ci_some_nonempty, H2; discriminate).
  rewrite (eat_ci_app _ _ _ t H2).
  rewrite lstrip_app_nonempty by (eapply eat_ci_some_nonempty, H3; discriminate).
  apply eat_ci_app, H3.
Qed.

Lemma search_app_true {A} (m : string -> option A) (pre s : string) :
  is_Some (m s) -> Regex.search m (pre ++ s) = true.
Proof.
  intros [a Ha]. induction pre as [| c pre IH]; cbn.
  - destruct s; cbn; rewrite Ha; reflexivity.
  - destruct (m (String c (pre ++ s))); [reflexivity | exact IH].
Qed.

(** A closing delimiter anywhere in the text is found by the search. *)
Lemma has_close_anywhere (pre d post : string) :
  is_closing_delimiter d -> has_close (pre ++ d ++ post) = true.
Proof.
  intros Hd. apply search_app_true.
  unfold Regex.close_at. rewrite (delim_at_app _ _ _ post Hd). eauto.
Qed.

Lemma delimiter_nonempty (open d r : string) :
  Regex.delim_at open d = Some r -> is_empty d = false.
Proof.
  destruct d; [| reflexivity]. unfold Regex.delim_at.
  destruct open; cbn; discriminate.
Qed.

Lemma is_empty_app (s t : string) :
  is_empty t = false -> is_empty (s ++ t) = false.
Proof. destruct s; cbn; [trivial | reflexivity]. Qed.

(** C7. The closed-framing sample parses to the single record
    {CALL: "W1AW", MODE: "CW"}; and whenever a closing outer delimiter
    occurs anywhere in the text, the records are those of the closed
    blocks of the whole text, the marker-per-record framing playing no
    part. *)
Theorem parse_closed_framing :
  parse_cmd_records sample_a = [ {[ "CALL" := "W1AW"; "MODE" := "CW" ]} ] /\
  forall pre d post : string,
    is_closing_delimiter d ->
    parse_cmd_records (pre ++ d ++ post) =
      records_of (closed_blocks (pre ++ d ++ post)).
Proof.
  split; [vm_compute; reflexivity |].
  intros pre d post Hd. unfold parse_cmd_records.
  assert (Hne : is_empty (d ++ post) = false).
  { pose proof (delimiter_nonempty _ _ _ Hd) as Hd'.
    destruct d; [discriminate Hd' | reflexivity]. }
  rewrite is_empty_app by exact Hne.
  rewrite has_close_anywhere by assumption. reflexivity.
Qed.

Lemma parse_closed_framing_witness :
  is_closing_delimiter "</LISTRESPONSE>" /\
  parse_cmd_records (sample_b ++ "</LISTRESPONSE>" ++ "") =
    [ {[ "CALL" := "K1ABC" ]} ] /\
  parse_format_b (sample_b ++ "</LISTRESPONSE>" ++ "") =
    [ {[ "CALL" := "W1AW" ]}; {[ "CALL" := "K1ABC" ]} ].
Proof.
  split; [reflexivity |]. split; [| vm_compute; reflexivity].
  rewrite (proj2 parse_closed_framing sample_b "</LISTRESPONSE>" "" eq_refl).
  vm_compute. reflexivity.
Defined.

(** *** Splitting on the marker *)

Lemma eqb_char_ci_lt (b : ascii) : eqb_char_ci "<" b = true -> b = "<"%char.
Proof.
  destruct b as [[] [] [] [] [] [] [] []]; vm_compute; intros H;
    first [reflexivity | discriminate H].
Qed.

Lemma eat_ci_lt (c : ascii) (u : string) :
  Regex.eat_ci "<" (String c u) = if eqb_char_ci "<" c then Some u else None.
Proof. reflexivity. Qed.

(** A marker starts with [<]. *)
Lemma marker_starts_lt (m r : string) :
  Regex.marker_at m = Some r -> exists m', m = String "<" m'.
Proof.
  unfold Regex.marker_at, Regex.delim_at. destruct m as [| b m']; [discriminate |].
  rewrite eat_ci_lt.
  destruct (eqb_char_ci "<" b) eqn:Hb; [| discriminate].
  intros _. apply eqb_char_ci_lt in Hb as ->. eauto.
Qed.

Lemma lstrip_app_lt (s v : string) :
  lstrip_by is_space (s ++ String "<" v) = lstrip_by is_space s ++ String "<" v.
Proof.
  induction s as [| c s IH]; cbn; [reflexivity |].
  destruct (is_space c); [exact IH | reflexivity].
Qed.

(** A literal without [<] that does not match a text does not match the
    text followed by [<] either. *)
Lemma eat_ci_app_lt (lit s v : string) :
  all_chars (fun a => negb (eqb_char_ci a "<")) lit = true ->
  Regex.eat_ci lit s = None ->
  Regex.eat_ci lit (s ++ String "<" v) = None.
Proof.
  revert s. induction lit as [| a lit IH]; intros s Hlit; cbn; [discriminate |].
  cbn in Hlit. apply andb_prop in Hlit as [Ha Hlit].
  destruct s as [| b s]; cbn.
  - intros _. apply negb_true_iff in Ha. rewrite Ha. reflexivity.
  - destruct (eqb_char_ci a b); [apply IH, Hlit | reflexivity].
Qed.

(** No marker starts in a text before the [<] that follows it, unless it
    ends there as well. *)
Lemma marker_at_app_lt (c : ascii) (u v : string) :
  Regex.marker_at (String c u) = None ->
  Regex.marker_at (String c u ++ String "<" v) = None.
Proof.
  unfold Regex.marker_at, Regex.delim_at.
  rewrite string_app_cons, !eat_ci_lt.
  destruct (eqb_char_ci "<" c); [| reflexivity].
  rewrite lstrip_app_lt.
  destruct (Regex.eat_ci "LISTRESPONSE" (lstrip_by is_space u)) as [s2 |] eqn:H2.
  - rewrite (eat_ci_app _ _ _ (String "<" v) H2), lstrip_app_lt.
    apply eat_ci_app_lt. reflexivity.
  - intros _. rewrite eat_ci_app_lt; [reflexivity | reflexivity | exact H2].
Qed.

Lemma split_nonempty (m : string -> option string) (k : nat) (s : string) :
  Regex.split m k s <> [].
Proof.
  revert k. induction s as [| c s IH]; intros k; cbn; [discriminate |].
  destruct k; [| apply IH].
  destruct (m (String c s)); [discriminate |].
  specialize (IH 0%nat). destruct (Regex.split m 0 s); [contradiction | discriminate].
Qed.

(** Passing over the characters of a match. *)
Lemma split_skip (m : string -> option string) (u rest : string) :
  Regex.split m (String.length u) (u ++ rest) = Regex.split m 0 rest.
Proof. induction u as [| c u IH]; cbn; [reflexivity | exact IH]. Qed.

(** The text up to the first marker is the first piece. *)
Lemma split_before_marker (pre v : string) :
  no_marker pre ->
  Regex.split Regex.marker_at 0 (pre ++ String "<" v) =
    match Regex.split Regex.marker_at 0 (String "<" v) with
    | p :: ps => (pre ++ p) :: ps
    | [] => [pre]
    end.
Proof.
  unfold no_marker.
  pose proof (split_nonempty Regex.marker_at 0 (String "<" v)) as Hne.
  remember (Regex.split Regex.marker_at 0 (String "<" v)) as pieces eqn:Epieces.
  destruct pieces as [| p ps]; [contradiction |].
  induction pre as [| c pre IH]; intros Hpre.
  - symmetry. exact Epieces.
  - cbn [Regex.search] in Hpre.
    destruct (Regex.marker_at (String c pre)) eqn:Hm; [discriminate Hpre |].
    specialize (IH Hpre).
    rewrite string_app_cons. cbn [Regex.split].
    rewrite <- string_app_cons, (marker_at_app_lt _ _ _ Hm), IH.
    reflexivity.
Qed.

(** A text without marker is one piece. *)
Lemma split_no_marker (c : string) :
  no_marker c -> Regex.split Regex.marker_at 0 c = [c].
Proof.
  unfold no_marker. induction c as [| a c IH]; intros Hc; [reflexivity |].
  cbn [Regex.search] in Hc. cbn [Regex.split].
  destruct (Regex.marker_at (String a c)); [discriminate Hc |].
  rewrite IH by exact Hc. reflexivity.
Qed.

(** At a marker the current piece ends and the next one starts after the
    marker. *)
Lemma split_at_marker (m rest : string) :
  is_marker m ->
  Regex.split Regex.marker_at 0 (m ++ rest) =
    "" :: Regex.split Regex.marker_at 0 rest.
Proof.
  intros Hm. pose proof (delim_at_app _ _ _ rest Hm) as Hat.
  destruct (marker_starts_lt _ _ Hm) as [m' ->].
  change (String "<" m' ++ rest) with (String "<" (m' ++ rest)) in *.
  cbn [Regex.split]. unfold Regex.marker_at. rewrite Hat.
  cbn [String.append]. unfold Regex.consumed. cbn [String.length].
  rewrite string_length_app.
  replace (S (String.length m' + String.length rest) - String.length rest - 1)%nat
    with (String.length m') by lia.
  rewrite split_skip. reflexivity.
Qed.

(** The pieces of a framed text are its preamble and its chunks. *)
Lemma marker_parts_framed (chunks : list (string * string)) (pre : string) :
  no_marker pre ->
  Forall (fun mc => is_marker mc.1 /\ no_marker mc.2) chunks ->
  marker_parts (framed pre chunks) = pre :: chunks.*2.
Proof.
  revert pre. induction chunks as [| [m c] chunks IH]; intros pre Hpre Hall; cbn.
  - apply split_no_marker, Hpre.
  - apply Forall_cons in Hall as [[Hm Hc] Hall]. cbn in Hm, Hc.
    unfold marker_parts in *.
    destruct (marker_starts_lt _ _ Hm) as [m' Em].
    assert (E : m ++ framed c chunks = String "<" (m' ++ framed c chunks))
      by (rewrite Em; reflexivity).
    rewrite E, split_before_marker by exact Hpre.
    rewrite <- E, split_at_marker by exact Hm.
    rewrite IH by assumption.
    rewrite string_app_nil_r. reflexivity.
Qed.

(** The records of a list of chunks are the non-empty ones among their
    tag dictionaries, in order. *)
Lemma records_of_filter (chunks : list string) :
  records_of chunks =
    filter (fun rec : gmap string string => rec <> ∅) (_parse_tags <$> chunks).
Proof.
  induction chunks as [| c chunks IH]; [reflexivity |]. cbn [records_of fmap list_fmap].
  destruct (decide (_parse_tags c = ∅)) as [He | Hne].
  - rewrite filter_cons_False by (intros H; apply H, He). exact IH.
  - rewrite filter_cons_True by exact Hne. f_equal. exact IH.
Qed.

Lemma framed_cons_nonempty (pre m c : string) (chunks : list (string * string)) :
  is_marker m -> is_empty (framed pre ((m, c) :: chunks)) = false.
Proof.
  intros Hm. cbn [framed]. apply is_empty_app.
  pose proof (delimiter_nonempty _ _ _ Hm) as Hne.
  destruct m; [discriminate Hne | reflexivity].
Qed.

(** C8. The marker-per-record sample parses to two records, {CALL: "W1AW"}
    then {CALL: "K1ABC"}, of one field each.  In a text without closing
    delimiter, made of a preamble and of chunks that each follow an outer
    marker and run to the next marker or to the end of the text, the
    records are the tag dictionaries of the chunks, in order, without the
    empty ones: a chunk with no tag pair gives no record and no error. *)
Theorem parse_marker_framing :
  parse_cmd_records sample_b = [ {[ "CALL" := "W1AW" ]}; {[ "CALL" := "K1ABC" ]} ] /\
  size <$> parse_cmd_records sample_b = [1%nat; 1%nat] /\
  (forall (pre : string) (chunks : list (string * string)),
     no_marker pre ->
     Forall (fun mc => is_marker mc.1 /\ no_marker mc.2) chunks ->
     has_close (framed pre chunks) = false ->
     parse_cmd_records (framed pre chunks) =
       filter (fun rec : gmap string string => rec <> ∅) (_parse_tags <$> chunks.*2)) /\
  (forall chunk : string, tag_pairs chunk = [] -> _parse_tags chunk = ∅).
Proof.
  split; [vm_compute; reflexivity |]. split; [vm_compute; reflexivity |]. split.
  - intros pre chunks Hpre Hall Hclose.
    rewrite <- records_of_filter. unfold parse_cmd_records, parse_format_b.
    rewrite Hclose, marker_parts_framed by assumption. cbn [tail].
    destruct chunks as [| [m c] chunks].
    + destruct (is_empty (framed pre [])); reflexivity.
    + apply Forall_cons in Hall as [[Hm _] _]. cbn in Hm.
      rewrite framed_cons_nonempty by exact Hm. reflexivity.
  - intros chunk Hnone. unfold _parse_tags. rewrite Hnone. reflexivity.
Qed.

Lemma parse_marker_framing_witness :
  tag_pairs "<CALL>N0CA" = [] /\
  parse_cmd_records (framed "" sample_truncated) =
    [ {[ "CALL" := "W1AW" ]}; {[ "CALL" := "K1ABC"; "MODE" := "CW" ]} ] /\
  _parse_tags "<CALL>N0CA" = ∅.
Proof.
  split; [reflexivity |]. split.
  - rewrite (proj1 (proj2 (proj2 parse_marker_framing)) "" sample_truncated).
    + vm_compute. reflexivity.
    + reflexivity.
    + repeat constructor.
    + reflexivity.
  - exact (proj2 (proj2 (proj2 parse_marker_framing)) "<CALL>N0CA" eq_refl).
Defined.

(** * Further properties of the aggregation state *)

(** A property of the empty state that every merge keeps holds after
    every run. *)
Lemma add_records_invariant (P : Aggregates -> Prop) :
  (forall (s : Aggregates) (r : gmap string string), P s -> P (merge s r)) ->
  forall (recs : list (gmap string string)) (s : Aggregates),
    P s -> P (add_records s recs).
Proof.
  intros Hstep recs. induction recs as [| r recs IH]; intros s Hs; [exact Hs |].
  cbn. apply IH. unfold add_record.
  destruct (is_duplicate s r); [exact Hs | apply Hstep, Hs].
Qed.

Lemma points_from_modetest_range (modetest : string) :
  0 <= points_from_modetest modetest <= 2.
Proof.
  unfold points_from_modetest.
  destruct (String.eqb _ "PH"); [lia |].
  destruct (String.eqb _ "CW" || String.eqb _ "DIG"); lia.
Qed.

Lemma operator_of_nonempty (r : gmap string string) : operator_of r <> "".
Proof. unfold operator_of. destruct (strip _); discriminate. Qed.

Lemma mode_of_nonempty (r : gmap string string) : mode_of r <> "".
Proof. unfold mode_of. destruct (strip _); discriminate. Qed.

Lemma time_bucket_year (qso_date qso_time key : string) :
  time_bucket qso_date qso_time = Some key ->
  exists rest : string, key = "2026-" ++ rest.
Proof.
  unfold time_bucket, hour_key.
  destruct (truthy qso_date && truthy qso_time); [| discriminate].
  destruct (month_day qso_date) as [[[month day] |] |]; try discriminate.
  destruct (hour_of qso_time) as [hour |]; [| discriminate].
  destruct (truthy month && truthy day && truthy hour); [| discriminate].
  intros [= <-]. eauto.
Qed.

Lemma entries_from_empty (lo : Z) : entries_from lo ∅.
Proof. apply map_Forall_empty. Qed.

Lemma entries_from_bump (lo n : Z) (k : string) (d : gmap string Z) :
  0 <= lo -> lo <= n -> k <> "" ->
  entries_from lo d -> entries_from lo (bump k n d).
Proof.
  intros Hlo Hn Hk Hd. unfold bump. apply map_Forall_insert_2; [| exact Hd].
  split; [exact Hk |].
  destruct (d !! k) as [v |] eqn:Hv; cbn; [| lia].
  destruct (Hd k v Hv) as [_ Hle]. lia.
Qed.

Lemma entries_from_bump_zero (k : string) (n : Z) (d : gmap string Z) :
  0 <= n -> k <> "" -> entries_from 0 d -> entries_from 0 (bump k n d).
Proof.
  intros Hn Hk Hd. unfold bump. apply map_Forall_insert_2; [| exact Hd].
  split; [exact Hk |].
  destruct (d !! k) as [v |] eqn:Hv; cbn; [| lia].
  destruct (Hd k v Hv) as [_ Hle]. lia.
Qed.

Lemma entries_from_bump_if_present (k : string) (d : gmap string Z) :
  entries_from 1 d -> entries_from 1 (bump_if_present k d).
Proof.
  intros Hd. unfold bump_if_present.
  destruct k as [| c k]; cbn; [exact Hd |].
  apply entries_from_bump; [lia | lia | discriminate | exact Hd].
Qed.

Lemma counters_well_formed_merge (s : Aggregates) (r : gmap string string) :
  counters_well_formed s -> counters_well_formed (merge s r).
Proof.
  intros (Hop & Hpts & Hmode & Hband & Hcont & Hstate & Hctry & Hhour & Hbh).
  unfold counters_well_formed, merge; cbn.
  split_and!;
    try (apply entries_from_bump_if_present; assumption).
  - apply entries_from_bump; [lia | lia | apply operator_of_nonempty | exact Hop].
  - apply entries_from_bump_zero;
      [apply points_from_modetest_range | apply operator_of_nonempty | exact Hpts].
  - apply entries_from_bump; [lia | lia | apply mode_of_nonempty | exact Hmode].
  - destruct (time_bucket _ _) as [key |] eqn:Hkey; [| exact Hhour].
    destruct (time_bucket_year _ _ _ Hkey) as [rest ->].
    apply entries_from_bump; [lia | lia | discriminate | exact Hhour].
  - destruct (time_bucket _ _) as [key |] eqn:Hkey; [| exact Hbh].
    destruct (time_bucket_year _ _ _ Hkey) as [rest ->].
    unfold bump_band_hour. destruct (band_of r) as [| c band] eqn:Eband; cbn; [exact Hbh |].
    apply map_Forall_insert_2; [| exact Hbh].
    split; [discriminate |]. split; [apply insert_non_empty |].
    apply entries_from_bump; [lia | lia | discriminate |].
    destruct (qsos_by_band_hour s !! String c band) as [hd |] eqn:Hhd; cbn.
    + apply (Hbh _ _ Hhd).
    + apply entries_from_empty.
Qed.

(** X1. After any run from the empty state, no counter has the empty
    string as a key, every count that is stored is at least 1 (at least 0
    for the points of an operator), and a band listed in the per-band
    hourly histogram has at least one hour bucket. *)
Theorem counters_stay_well_formed (recs : list (gmap string string)) :
  let s := add_records empty_aggregates recs in
  (forall (k : string) (v : Z),
     contacts_by_operator s !! k = Some v \/ contacts_by_mode s !! k = Some v \/
     contacts_by_band s !! k = Some v \/ contacts_by_continent s !! k = Some v \/
     contacts_by_state s !! k = Some v \/ contacts_by_country s !! k = Some v \/
     qsos_by_hour s !! k = Some v ->
     k <> "" /\ 1 <= v) /\
  (forall (k : string) (v : Z),
     points_by_operator s !! k = Some v -> k <> "" /\ 0 <= v) /\
  (forall (band : string) (hour_data : gmap string Z),
     qsos_by_band_hour s !! band = Some hour_data ->
     band <> "" /\ hour_data <> ∅ /\
     forall (k : string) (v : Z), hour_data !! k = Some v -> k <> "" /\ 1 <= v).
Proof.
  intros s.
  assert (H : counters_well_formed s).
  { apply add_records_invariant; [apply counters_well_formed_merge |].
    unfold counters_well_formed; cbn.
    split_and!; try apply entries_from_empty. apply map_Forall_empty. }
  destruct H as (Hop & Hpts & Hmode & Hband & Hcont & Hstate & Hctry & Hhour & Hbh).
  split; [| split].
  - intros k v [H | [H | [H | [H | [H | [H | H]]]]]];
      [ apply (Hop k v H) | apply (Hmode k v H) | apply (Hband k v H)
      | apply (Hcont k v H) | apply (Hstate k v H) | apply (Hctry k v H)
      | apply (Hhour k v H) ].
  - intros k v H. apply (Hpts k v H).
  - intros band hd H. destruct (Hbh band hd H) as (Hb & Hne & Hhd).
    split; [exact Hb |]. split; [exact Hne |].
    intros k v Hk. apply (Hhd k v Hk).
Qed.

Lemma counters_stay_well_formed_witness :
  contacts_by_band (add_records empty_aggregates seed_fetch) !! "20M" = Some 2 /\
  "20M" <> "" /\ 1 <= 2.
Proof.
  split; [reflexivity |].
  apply (proj1 (counters_stay_well_formed seed_fetch) "20M" 2).
  right; right; left. reflexivity.
Defined.

Lemma points_balanced_merge (s : Aggregates) (r : gmap string string) :
  points_balanced s -> points_balanced (merge s r).
Proof.
  intros [Hsum Hrange]. unfold points_balanced, merge; cbn.
  rewrite sum_values_bump.
  pose proof (points_from_modetest_range (modetest_of r)). lia.
Qed.

(** X2. After any run from the empty state, the points per operator sum
    to the total points, and the total points lie between 0 and twice the
    total contacts. *)
Theorem points_by_operator_sum (recs : list (gmap string string)) :
  let s := add_records empty_aggregates recs in
  sum_values (points_by_operator s) = total_points s /\
  0 <= total_points s <= 2 * total_contacts s.
Proof.
  apply (add_records_invariant points_balanced points_balanced_merge).
  unfold points_balanced; cbn. rewrite sum_values_empty. lia.
Qed.

Lemma sum_values_bump_if_present (k : string) (d : gmap string Z) :
  sum_values d <= sum_values (bump_if_present k d) <= sum_values d + 1.
Proof.
  unfold bump_if_present. destruct (truthy k); [| lia].
  rewrite sum_values_bump. lia.
Qed.

Lemma dimensions_bounded_merge (s : Aggregates) (r : gmap string string) :
  dimensions_bounded s -> dimensions_bounded (merge s r).
Proof.
  intros (Hband & Hcont & Hstate & Hctry & Hhour).
  unfold dimensions_bounded, merge; cbn.
  pose proof (sum_values_bump_if_present (band_of r) (contacts_by_band s)).
  pose proof (sum_values_bump_if_present (continent_of r) (contacts_by_continent s)).
  pose proof (sum_values_bump_if_present (state_of r) (contacts_by_state s)).
  pose proof (sum_values_bump_if_present (country_of r) (contacts_by_country s)).
  split_and!; try lia.
  - destruct (time_bucket _ _); [rewrite sum_values_bump |]; lia.
  - destruct (time_bucket _ _); [rewrite sum_values_bump |]; lia.
Qed.

(** X3. After any run from the empty state, the counts per band, per
    continent, per state and per country, and the counts of the hourly
    histogram, each sum to at most the total contact count (a contact
    without the field is not counted in that dimension) and to at least
    0. *)
Theorem optional_dimensions_bounded (recs : list (gmap string string)) :
  let s := add_records empty_aggregates recs in
  0 <= sum_values (contacts_by_band s) <= total_contacts s /\
  0 <= sum_values (contacts_by_continent s) <= total_contacts s /\
  0 <= sum_values (contacts_by_state s) <= total_contacts s /\
  0 <= sum_values (contacts_by_country s) <= total_contacts s /\
  0 <= sum_values (qsos_by_hour s) <= total_contacts s.
Proof.
  apply (add_records_invariant dimensions_bounded dimensions_bounded_merge).
  unfold dimensions_bounded; cbn. rewrite sum_values_empty. lia.
Qed.

Lemma band_hours_bounded_merge (s : Aggregates) (r : gmap string string) :
  entries_from 1 (contacts_by_band s) ->
  band_hours_bounded s -> band_hours_bounded (merge s r).
Proof.
  intros Hpos Hs band hd. unfold merge; cbn.
  unfold bump_if_present, bump_band_hour.
  destruct (band_of r) as [| c b] eqn:Eband; cbn.
  { destruct (time_bucket _ _); intros H; apply (Hs band hd H). }
  set (this := String c b) in *.
  assert (Hold : forall hd0, qsos_by_band_hour s !! band = Some hd0 ->
            exists n, bump this 1 (contacts_by_band s) !! band = Some n /\
                      sum_values hd0 <= n).
  { intros hd0 H0. destruct (Hs band hd0 H0) as (n & Hn & Hle). unfold bump.
    destruct (decide (this = band)) as [-> | Hne].
    - rewrite lookup_insert_eq, Hn; cbn. exists (n + 1). split; [reflexivity | lia].
    - rewrite lookup_insert_ne by exact Hne. eauto. }
  destruct (time_bucket _ _) as [key |]; [| apply Hold].
  destruct (decide (this = band)) as [<- | Hne].
  - rewrite lookup_insert_eq. intros [= <-]. rewrite sum_values_bump.
    unfold bump. rewrite lookup_insert_eq.
    destruct (qsos_by_band_hour s !! this) as [hd0 |] eqn:Hhd0; cbn.
    + destruct (Hs this hd0 Hhd0) as (n & Hn & Hle). rewrite Hn; cbn.
      exists (n + 1). split; [reflexivity | lia].
    + rewrite sum_values_empty.
      destruct (contacts_by_band s !! this) as [n |] eqn:Hn; cbn.
      * destruct (Hpos this n Hn) as [_ Hle]. exists (n + 1). split; [reflexivity | lia].
      * exists (0 + 1). split; [reflexivity | lia].
  - rewrite lookup_insert_ne by exact Hne. apply Hold.
Qed.

Lemma band_hours_bounded_all (recs : list (gmap string string)) :
  band_hours_bounded (add_records empty_aggregates recs).
Proof.
  apply (add_records_invariant
           (fun s => counters_well_formed s /\ band_hours_bounded s)).
  - intros s r [Hwf Hbh]. split; [apply counters_well_formed_merge, Hwf |].
    apply band_hours_bounded_merge; [apply Hwf | exact Hbh].
  - split.
    + unfold counters_well_formed; cbn.
      split_and!; try apply entries_from_empty. apply map_Forall_empty.
    + intros band hd H. cbn in H. rewrite lookup_empty in H. discriminate H.
Qed.

(** X4. After any run from the empty state, a band of the per-band hourly
    histogram is also a band of the per-band contact counter, and its
    hourly counts sum to at most its contact count: the contacts of the
    band that have no hour bucket make the difference. *)
Theorem band_hours_at_most_band_contacts
    (recs : list (gmap string string)) (band : string) (hour_data : gmap string Z) :
  qsos_by_band_hour (add_records empty_aggregates recs) !! band = Some hour_data ->
  exists n : Z,
    contacts_by_band (add_records empty_aggregates recs) !! band = Some n /\
    sum_values hour_data <= n.
Proof. apply band_hours_bounded_all. Qed.

Lemma band_hours_at_most_band_contacts_witness :
  exists n : Z,
    contacts_by_band mixed_20m_state !! "20M" = Some n /\
    sum_values ({[ "2026-01-26-21" := 1 ]} : gmap string Z) <= n.
Proof.
  exact (band_hours_at_most_band_contacts [timed_20m; untimed_20m] "20M"
           {[ "2026-01-26-21" := 1 ]} eq_refl).
Defined.

(** ** Deduplication across fetches *)

Lemma keys_of_cons (r : gmap string string) (recs : list (gmap string string)) :
  keys_of (r :: recs) =
    match primary_key r with
    | Some k => {[k]} ∪ keys_of recs
    | None => keys_of recs
    end.
Proof. unfold keys_of; cbn. destruct (primary_key r); reflexivity. Qed.

Lemma keyless_count_cons (r : gmap string string) (recs : list (gmap string string)) :
  keyless_count (r :: recs) =
    match primary_key r with
    | Some _ => keyless_count recs
    | None => keyless_count recs + 1
    end.
Proof.
  unfold keyless_count. destruct (primary_key r) as [k |] eqn:Hk.
  - rewrite filter_cons_False by (rewrite Hk; discriminate). reflexivity.
  - rewrite filter_cons_True by exact Hk. cbn [length]. lia.
Qed.

(** The effect of a run from any state on the keys seen and on the total
    contact count. *)
Lemma add_records_keys (recs : list (gmap string string)) (s : Aggregates) :
  seen_keys (add_records s recs) = keys_of recs ∪ seen_keys s /\
  total_contacts (add_records s recs) - Z.of_nat (size (seen_keys (add_records s recs))) =
    total_contacts s - Z.of_nat (size (seen_keys s)) + keyless_count recs.
Proof.
  revert s. induction recs as [| r recs IH]; intros s.
  - cbn. split; [unfold keys_of; cbn; by rewrite (left_id_L ∅ (∪)) | unfold keyless_count; cbn; lia].
  - cbn [add_records foldl]. fold (add_records (add_record s r) recs).
    destruct (IH (add_record s r)) as [IHk IHt]. rewrite IHk, IHt in *.
    rewrite keys_of_cons, keyless_count_cons.
    unfold add_record, is_duplicate.
    destruct (primary_key r) as [k |] eqn:Hk.
    + case_bool_decide as Hin.
      * split; [| lia]. apply set_eq. intros x.
        rewrite !elem_of_union, elem_of_singleton.
        split; [tauto | intros [[-> | ?] | ?]; tauto].
      * unfold merge; cbn. rewrite Hk. split.
        { apply set_eq. intros x. rewrite !elem_of_union. tauto. }
        rewrite size_union by (apply disjoint_singleton_l, Hin).
        rewrite size_singleton. lia.
    + unfold merge; cbn. rewrite Hk. split; [reflexivity | lia].
Qed.

(** X5. After any run from the empty state, the keys seen are the integer
    keys of the records fetched, and the total contact count is the number
    of distinct integer keys plus the number of records without integer
    key: each key counts once, a record without key counts every time it
    is fetched. *)
Theorem total_contacts_counts_distinct_keys (recs : list (gmap string string)) :
  let s := add_records empty_aggregates recs in
  seen_keys s = keys_of recs /\
  total_contacts s = Z.of_nat (size (keys_of recs)) + keyless_count recs.
Proof.
  intros s. destruct (add_records_keys recs empty_aggregates) as [Hk Ht].
  fold s in Hk, Ht. cbn in Hk, Ht.
  assert (Hkeys : seen_keys s = keys_of recs) by (rewrite Hk; apply (right_id_L ∅ (∪))).
  split; [exact Hkeys |]. rewrite Hkeys, size_empty in Ht. lia.
Qed.

Lemma add_records_all_seen (tail : list (gmap string string)) (s : Aggregates) :
  (forall r, r ∈ tail -> exists k, primary_key r = Some k /\ k ∈ seen_keys s) ->
  add_records s tail = s.
Proof.
  induction tail as [| r tail IH]; intros Hall; [reflexivity |].
  cbn [add_records foldl]. fold (add_records (add_record s r) tail).
  destruct (Hall r) as (k & Hk & Hin); [left |].
  rewrite (add_record_duplicate s r k Hk Hin).
  apply IH. intros r' Hr'. apply Hall. right. exact Hr'.
Qed.

(** X6. A fetch in which every record has an integer key that an earlier
    fetch already delivered leaves the whole state as it is, whatever the
    other fields of its records are. *)
Theorem refetch_of_seen_keys_changes_nothing
    (s : Aggregates) (seed tail : list (gmap string string)) :
  (forall r, r ∈ tail -> exists k, primary_key r = Some k /\ k ∈ keys_of seed) ->
  add_records (add_records s seed) tail = add_records s seed.
Proof.
  intros Hall. apply add_records_all_seen. intros r Hr.
  destruct (Hall r Hr) as (k & Hk & Hin). exists k. split; [exact Hk |].
  destruct (add_records_keys seed s) as [-> _]. set_solver.
Qed.

Lemma refetch_of_seen_keys_changes_nothing_witness :
  add_records (add_records empty_aggregates seed_fetch) tail_fetch =
    add_records empty_aggregates seed_fetch.
Proof.
  apply refetch_of_seen_keys_changes_nothing.
  intros r Hr. unfold tail_fetch in Hr.
  apply elem_of_cons in Hr as [-> | Hr].
  { exists 2. split; [reflexivity |]. apply (bool_decide_unpack _). vm_compute. reflexivity. }
  apply elem_of_cons in Hr as [-> | Hr].
  { exists 1. split; [reflexivity |]. apply (bool_decide_unpack _). vm_compute. reflexivity. }
  apply elem_of_nil in Hr. contradiction.
Defined.

(** ** The station registry, last writer wins *)

Lemma station_after_snoc (name : string) (log : list (gmap string string)) (r : gmap string string) :
  station_after name (log ++ [r])%list =
    Some {|
      st_name := name;
      st_operator := operator_of r;
      st_band := band_of r;
      st_mode := mode_of r;
      st_recent := take 5 (qso_entry_of r :: recent_of_log log);
      st_lastUpdate := full_time_of r;
    |}.
Proof.
  unfold station_after. rewrite last_snoc, recent_of_log_snoc. reflexivity.
Qed.

(** X7. After any run from the empty state, a station is in the registry
    exactly when a record was merged for it, its entry is stored under its
    own name, and the operator, band, mode and last-update time of the
    entry are those of the last record merged for the station. *)
Theorem registry_last_writer_wins (recs : list (gmap string string)) (name : string) :
  stations (add_records empty_aggregates recs) !! name =
    station_after name (station_log name empty_aggregates recs).
Proof.
  revert name. induction recs as [| r recs IH] using rev_ind; intros name.
  - reflexivity.
  - specialize (IH name). unfold station_log in *.
    rewrite add_records_snoc, accepted_from_snoc. unfold add_record.
    set (s := add_records empty_aggregates recs) in *.
    destruct (is_duplicate s r).
    { rewrite app_nil_r. exact IH. }
    rewrite filter_app. cbn [stations merge]. unfold upsert_station.
    destruct (decide (station_of r = name)) as [Heq | Hne].
    + rewrite filter_cons_True, filter_nil by assumption.
      rewrite station_after_snoc, Heq, lookup_insert_eq, IH.
      set (log := filter (fun r0 => station_of r0 = name) (accepted_from empty_aggregates recs)).
      f_equal. unfold update_station, station_after.
      destruct (last log) as [r0 |] eqn:Hlast; cbn.
      * reflexivity.
      * apply last_None in Hlast. rewrite Hlast, Heq. reflexivity.
    + rewrite filter_cons_False, filter_nil, app_nil_r by assumption.
      rewrite lookup_insert_ne by assumption. exact IH.
Qed.

(** ** Sections *)

Lemma sections_of_snoc (recs : list (gmap string string)) (r : gmap string string) :
  sections_of (recs ++ [r])%list =
    if truthy (section_of r) then {[section_of r]} ∪ sections_of recs
    else sections_of recs.
Proof.
  unfold sections_of. rewrite fmap_app, filter_app, list_to_set_app_L.
  change (section_of <$> [r]) with [section_of r].
  destruct (section_of r) as [| c sec]; cbn [truthy is_empty negb].
  - rewrite filter_cons_False by (intros H; apply H; reflexivity).
    rewrite filter_nil. cbn. apply (right_id_L ∅ (∪)).
  - rewrite filter_cons_True by discriminate. rewrite filter_nil. cbn.
    by rewrite (right_id_L ∅ (∪)), (comm_L (∪)).
Qed.

(** X8. After any run from the empty state, the sections worked are the
    non-empty sections (ARRLSECTION, else SECTION) of the records that
    were merged, and the section count of a snapshot is their number. *)
Theorem sections_worked_of_merged_records
    (recs : list (gmap string string)) (config : option ScoringConfig) :
  let s := add_records empty_aggregates recs in
  sections_worked s = sections_of (accepted_from empty_aggregates recs) /\
  sections (snapshot s config) =
    Z.of_nat (size (sections_of (accepted_from empty_aggregates recs))).
Proof.
  assert (H : sections_worked (add_records empty_aggregates recs) =
              sections_of (accepted_from empty_aggregates recs)).
  { induction recs as [| r recs IH] using rev_ind; [reflexivity |].
    rewrite add_records_snoc, accepted_from_snoc. unfold add_record.
    destruct (is_duplicate _ r).
    - rewrite app_nil_r. exact IH.
    - rewrite sections_of_snoc. cbn [sections_worked merge]. rewrite IH. reflexivity. }
  intros s. split; [exact H |]. cbn [sections snapshot]. unfold s. rewrite H. reflexivity.
Qed.

(** * Further properties of scoring *)

(** What one step of the bonus computation keeps: the points are those of
    the lines so far, within bounds, and every line is positive. *)
Lemma flag_bonus_step (flag : bool) (name : string) (acc : Z * list (string * Z)) (hi : Z) :
  acc.1 = breakdown_total acc.2 -> 0 <= acc.1 <= hi ->
  Forall (fun line => 0 < line.2) acc.2 ->
  let acc' := flag_bonus flag name acc in
  acc'.1 = breakdown_total acc'.2 /\ 0 <= acc'.1 <= hi + 100 /\
  Forall (fun line => 0 < line.2) acc'.2.
Proof.
  intros Hsum Hrange Hpos. unfold flag_bonus. destruct flag; cbn [fst snd].
  - split; [| split; [lia |]].
    + unfold breakdown_total in *. rewrite foldr_app; cbn.
      rewrite Hsum. generalize acc.2. intros l.
      induction l as [| x l IH]; cbn; [lia | rewrite <- IH; lia].
    + apply Forall_app. split; [exact Hpos |]. constructor; [cbn; lia | constructor].
  - split; [exact Hsum |]. split; [lia | exact Hpos].
Qed.

Lemma nts_bonus_step (originated handled : Z) (acc : Z * list (string * Z)) (hi : Z) :
  acc.1 = breakdown_total acc.2 -> 0 <= acc.1 <= hi ->
  Forall (fun line => 0 < line.2) acc.2 ->
  let acc' := nts_bonus originated handled acc in
  acc'.1 = breakdown_total acc'.2 /\ 0 <= acc'.1 <= hi + 200 /\
  Forall (fun line => 0 < line.2) acc'.2.
Proof.
  intros Hsum Hrange Hpos. unfold nts_bonus.
  destruct (Z.ltb_spec 0 ((Z.min originated 10 + Z.min handled 10) * 10)) as [Hgt | Hle];
    cbn [fst snd].
  - split; [| split; [lia |]].
    + unfold breakdown_total in *. rewrite foldr_app; cbn.
      rewrite Hsum. generalize acc.2. intros l.
      induction l as [| x l IH]; cbn; [lia | rewrite <- IH; lia].
    + apply Forall_app. split; [exact Hpos |]. constructor; [cbn; lia | constructor].
  - split; [exact Hsum |]. split; [lia | exact Hpos].
Qed.

Lemma bonus_facts (config : ScoringConfig) :
  let b := _calculate_field_day_bonus config in
  bonusPoints b = breakdown_total (bonusBreakdown b) /\
  Forall (fun line => 0 < line.2) (bonusBreakdown b) /\
  0 <= bonusPoints b <= 1200 /\
  0 <= classMultiplier b <= 9 /\
  (powerMultiplier b = 1 \/ powerMultiplier b = 2).
Proof.
  unfold _calculate_field_day_bonus; cbn [bonusPoints bonusBreakdown classMultiplier powerMultiplier].
  set (b0 := (0, []) : Z * list (string * Z)).
  assert (H0 : b0.1 = breakdown_total b0.2 /\ 0 <= b0.1 <= 0 /\
               Forall (fun line => 0 < line.2) b0.2)
    by (cbn; split; [reflexivity | split; [lia | constructor]]).
  destruct H0 as (S0 & R0 & P0).
  destruct (flag_bonus_step (emergency_power config) "100% Emergency Power" _ _ S0 R0 P0)
    as (S1 & R1 & P1).
  destruct (flag_bonus_step (media_publicity config) "Media Publicity" _ _ S1 R1 P1)
    as (S2 & R2 & P2).
  destruct (flag_bonus_step (public_location config) "Public Location" _ _ S2 R2 P2)
    as (S3 & R3 & P3).
  destruct (flag_bonus_step (public_information_table config) "Public Information Table"
              _ _ S3 R3 P3) as (S4 & R4 & P4).
  destruct (nts_bonus_step (nts_message_originated config) (nts_message_handled config)
              _ _ S4 R4 P4) as (S5 & R5 & P5).
  destruct (flag_bonus_step (satellite_qso config) "Satellite QSO" _ _ S5 R5 P5)
    as (S6 & R6 & P6).
  destruct (flag_bonus_step (w1aw_bulletin config) "W1AW Bulletin Copy" _ _ S6 R6 P6)
    as (S7 & R7 & P7).
  destruct (flag_bonus_step (educational_activity config) "Educational Activity" _ _ S7 R7 P7)
    as (S8 & R8 & P8).
  destruct (flag_bonus_step (social_media config) "Social Media" _ _ S8 R8 P8)
    as (S9 & R9 & P9).
  destruct (flag_bonus_step (youth_participation config) "Youth Participation" _ _ S9 R9 P9)
    as (S10 & R10 & P10).
  destruct (flag_bonus_step (site_visit_official config) "Site Visit by Official" _ _ S10 R10 P10)
    as (S11 & R11 & P11).
  split; [exact S11 |]. split; [exact P11 |]. split; [lia |]. split.
  - rewrite class_multiplier_leading_digit.
    destruct (default "1A" (field_day_class config)) as [| c rest]; cbn; [lia |].
    destruct c as [[] [] [] [] [] [] [] []]; cbn; lia.
  - destruct (emergency_power config); [right | left]; reflexivity.
Qed.


Lemma total_points_nonneg (recs : list (gmap string string)) :
  0 <= total_points (add_records empty_aggregates recs).
Proof.
  apply (add_records_invariant (fun s => 0 <= total_points s)).
  - intros s r Hs. cbn. pose proof (points_from_modetest_range (modetest_of r)). lia.
  - cbn. lia.
Qed.


(** * Further properties of the rate statistics and of the listings *)

Lemma counters_well_formed_all (recs : list (gmap string string)) :
  counters_well_formed (add_records empty_aggregates recs).
Proof.
  apply add_records_invariant; [apply counters_well_formed_merge |].
  unfold counters_well_formed; cbn.
  split_and!; try apply entries_from_empty. apply map_Forall_empty.
Qed.

Lemma dom_omap_band_rate (d : gmap string (gmap string Z)) :
  map_Forall (fun _ hour_data => hour_data <> ∅) d ->
  dom (omap band_rate d) = dom d.
Proof.
  intros Hd. apply set_eq. intros band.
  rewrite !elem_of_dom, lookup_omap.
  destruct (d !! band) as [hd |] eqn:Hb; cbn.
  - rewrite band_rate_non_empty by (apply (Hd band hd Hb)). split; eauto.
  - split; intros [x Hx]; discriminate Hx.
Qed.

(** X11. For the state after any run from the empty state, the band rates
    of a snapshot list exactly the bands of the per-band hourly histogram
    when there is one, and exactly the bands of the per-band contact
    counter otherwise; every rate is a float (the integer 0 of the source
    is never produced). *)
Theorem band_rates_bands
    (recs : list (gmap string string)) (config : option ScoringConfig) :
  let s := add_records empty_aggregates recs in
  dom (bandRates (snapshot s config)) =
    (if decide (qsos_by_band_hour s = ∅) then dom (contacts_by_band s)
     else dom (qsos_by_band_hour s)) /\
  map_Forall (fun _ rate => exists x, rate = Float x) (bandRates (snapshot s config)).
Proof.
  intros s. cbn [bandRates snapshot]. unfold band_rates.
  assert (Hne : map_Forall (fun _ hd => hd <> ∅) (qsos_by_band_hour s)).
  { destruct (counters_well_formed_all recs) as (_ & _ & _ & _ & _ & _ & _ & _ & Hbh).
    intros band hd Hb. apply (Hbh band hd Hb). }
  pose proof (dom_omap_band_rate _ Hne) as Hdom.
  assert (Hfloat : map_Forall (fun _ rate => exists x, rate = Float x)
                     (omap band_rate (qsos_by_band_hour s))).
  { intros band rate Hr. rewrite lookup_omap in Hr.
    destruct (qsos_by_band_hour s !! band) as [hd |] eqn:Hb; [| discriminate Hr].
    cbn in Hr. rewrite band_rate_non_empty in Hr by (apply (Hne band hd Hb)).
    injection Hr as <-. unfold rate_of. eauto. }
  destruct (decide (qsos_by_band_hour s = ∅)) as [He | Hn].
  - rewrite He in *. rewrite omap_empty.
    rewrite decide_True by reflexivity.
    destruct (decide (contacts_by_band s = ∅)) as [Hc | Hc].
    + rewrite Hc. split; [reflexivity | apply map_Forall_empty].
    + split; [apply dom_fmap_L |].
      intros band rate Hr. rewrite lookup_fmap in Hr.
      destruct (contacts_by_band s !! band); [| discriminate Hr].
      injection Hr as <-. unfold rate_of. eauto.
  - rewrite decide_False; [split; assumption |].
    intros He. apply Hn. apply dom_empty_iff_L. rewrite <- Hdom, He. apply dom_empty_L.
Qed.

(** X12. In every state, the two short-term rates are 0 when no contact
    has a time instant; with at least 20 instants the 20-minute rate is 60
    and with at least 60 instants the 60-minute rate is 60, whatever the
    instants are; below these numbers each is the average rate. *)
Theorem short_term_rates (s : Aggregates) :
  let n := Z.of_nat (length (all_qso_times s)) in
  (n = 0 -> rate_20min s = 0 /\ rate_60min s = 0) /\
  (20 <= n -> rate_20min s = 60) /\
  (60 <= n -> rate_60min s = 60) /\
  (0 < n < 20 -> rate_20min s = average_rate s) /\
  (0 < n < 60 -> rate_60min s = average_rate s).
Proof.
  unfold rate_20min, rate_60min, recent_rate.
  destruct (all_qso_times s) as [| t times]; cbn [length].
  - cbn. split_and!; intros; lia.
  - set (n := Z.of_nat (S (length times))). cbv zeta.
    split_and!; intros Hn; try lia.
    + destruct (Z.leb_spec 20 n); lia.
    + destruct (Z.leb_spec 60 n); lia.
    + destruct (Z.leb_spec 20 n); [lia | reflexivity].
    + destruct (Z.leb_spec 60 n); [lia | reflexivity].
Qed.

Lemma short_term_rates_witness :
  rate_20min untimed_state = 0 /\ rate_60min untimed_state = 0 /\
  rate_20min mixed_20m_state = average_rate mixed_20m_state /\
  rate_60min mixed_20m_state = average_rate mixed_20m_state.
Proof.
  split; [| split; [| split]].
  - apply (proj1 (short_term_rates untimed_state)). reflexivity.
  - apply (proj1 (short_term_rates untimed_state)). reflexivity.
  - apply (proj1 (proj2 (proj2 (proj2 (short_term_rates mixed_20m_state))))).
    vm_compute. split; reflexivity.
  - apply (proj2 (proj2 (proj2 (proj2 (short_term_rates mixed_20m_state))))).
    vm_compute. split; reflexivity.
Defined.

(** ** Sorted listings *)

Section SortedBy.
Context {A : Type} (before : A -> A -> bool).
Hypothesis before_total : forall x y, before x y = true \/ before y x = true.

Lemma insert_by_perm (x : A) (l : list A) : insert_by before x l ≡ₚ x :: l.
Proof.
  induction l as [| y l IH]; cbn; [reflexivity |].
  destruct (before x y); [reflexivity |].
  rewrite IH. apply Permutation_swap.
Qed.

Lemma sorted_by_perm (l : list A) : sorted_by before l ≡ₚ l.
Proof.
  induction l as [| x l IH]; cbn; [reflexivity |].
  rewrite insert_by_perm, IH. reflexivity.
Qed.

Lemma insert_by_sorted (x : A) (l : list A) :
  Sorted (fun a b => before a b = true) l ->
  Sorted (fun a b => before a b = true) (insert_by before x l).
Proof.
  induction 1 as [| y l Hsorted IH Hhd]; cbn.
  - repeat constructor.
  - destruct (before x y) eqn:Hxy.
    + constructor; [constructor; assumption | constructor; exact Hxy].
    + constructor; [exact IH |].
      destruct (before_total x y) as [H | Hyx]; [congruence |].
      destruct Hhd as [| z l Hyz]; cbn.
      * constructor. exact Hyx.
      * destruct (before x z); constructor; assumption.
Qed.

Lemma sorted_by_sorted (l : list A) :
  Sorted (fun a b => before a b = true) (sorted_by before l).
Proof.
  induction l as [| x l IH]; cbn; [constructor | apply insert_by_sorted, IH].
Qed.

End SortedBy.

Lemma sorted_weaken {A} (R S : A -> A -> Prop) (l : list A) :
  (forall a b, R a b -> S a b) -> Sorted R l -> Sorted S l.
Proof.
  intros HRS. induction 1 as [| x l Hsorted IH Hhd]; constructor; [exact IH |].
  destruct Hhd; constructor. by apply HRS.
Qed.

Lemma by_count_desc_total (x y : string * Z) :
  by_count_desc x y = true \/ by_count_desc y x = true.
Proof. unfold by_count_desc. destruct (Z.leb_spec y.2 x.2); [left | right]; [reflexivity | lia]. Qed.

Lemma by_key_asc_total (x y : string * Z) :
  by_key_asc x y = true \/ by_key_asc y x = true.
Proof. apply String.leb_total. Qed.

Lemma listing_elem (d : gmap string Z) (items rows : list (string * Z)) (k : string) (v : Z) :
  items ≡ₚ map_to_list d -> rows ≡ₚ items ->
  (k, v) ∈ rows <-> d !! k = Some v.
Proof. intros Hitems Hrows. rewrite Hrows, Hitems. apply elem_of_map_to_list. Qed.

(** X13. Whatever the order in which a counter lists its items, the rows
    of its breakdown in a snapshot are non-increasing by count, hold
    exactly the entries of the counter, and are as many as its keys. *)
Theorem sorted_rows_descending (d : gmap string Z) (items : list (string * Z)) :
  items ≡ₚ map_to_list d ->
  Sorted (fun a b => b.2 <= a.2) (sorted_rows items) /\
  (forall k v, (k, v) ∈ sorted_rows items <-> d !! k = Some v) /\
  length (sorted_rows items) = size d.
Proof.
  intros Hitems. pose proof (sorted_by_perm by_count_desc items) as Hperm.
  split; [| split].
  - eapply sorted_weaken; [| apply (sorted_by_sorted by_count_desc by_count_desc_total)].
    intros a b H. apply Z.leb_le, H.
  - intros k v. by apply listing_elem with (items := items).
  - unfold sorted_rows. rewrite Hperm, Hitems. apply length_map_to_list.
Qed.

Lemma sorted_rows_descending_witness :
  sorted_rows (map_to_list (contacts_by_band untimed_state)) = [("20M", 2); ("40M", 1)] /\
  Sorted (fun a b : string * Z => b.2 <= a.2)
    (sorted_rows (map_to_list (contacts_by_band untimed_state))).
Proof.
  split; [vm_compute; reflexivity |].
  apply (sorted_rows_descending (contacts_by_band untimed_state)). reflexivity.
Defined.

(** X14. Whatever the order in which the hourly histogram lists its
    items, the hourly totals of the rate statistics are ascending by hour
    key, hold each hour bucket once with its count, and are as many as the
    total hours reported. *)
Theorem hourly_totals_ascending (s : Aggregates) (items : list (string * Z)) :
  items ≡ₚ map_to_list (qsos_by_hour s) ->
  Sorted (fun a b => String.leb a.1 b.1 = true) (hourly_totals items) /\
  NoDup (hourly_totals items).*1 /\
  (forall h q, (h, q) ∈ hourly_totals items <-> qsos_by_hour s !! h = Some q) /\
  Z.of_nat (length (hourly_totals items)) = total_hours s.
Proof.
  intros Hitems. pose proof (sorted_by_perm by_key_asc items) as Hperm.
  fold (hourly_totals items) in Hperm.
  split_and!.
  - apply (sorted_by_sorted by_key_asc by_key_asc_total).
  - rewrite Hperm, Hitems. apply NoDup_fst_map_to_list.
  - intros h q. by apply listing_elem with (items := items).
  - rewrite Hperm, Hitems. unfold total_hours, len.
    rewrite length_map_to_list. reflexivity.
Qed.

Lemma hourly_totals_ascending_witness :
  hourly_totals (map_to_list (qsos_by_hour mixed_20m_state)) = [("2026-01-26-21", 1)] /\
  Z.of_nat (length (hourly_totals (map_to_list (qsos_by_hour mixed_20m_state)))) =
    total_hours mixed_20m_state.
Proof.
  split; [vm_compute; reflexivity |].
  apply (hourly_totals_ascending mixed_20m_state). reflexivity.
Defined.

Lemma max_by_count_spec (rest : list (string * Z)) (first : string * Z) :
  max_by_count first rest ∈ first :: rest /\
  forall x, x ∈ first :: rest -> x.2 <= (max_by_count first rest).2.
Proof.
  revert first. induction rest as [| y rest IH]; intros first; cbn.
  - split; [left |]. intros x Hx. apply list_elem_of_singleton in Hx as ->. lia.
  - specialize (IH (if (first.2 <? y.2)%Z then y else first)).
    destruct IH as [Hin Hmax]. fold (max_by_count (if (first.2 <? y.2)%Z then y else first) rest) in *.
    split.
    + apply elem_of_cons in Hin as [-> | Hin].
      * destruct (first.2 <? y.2)%Z; [right; left | left].
      * right; right. exact Hin.
    + intros x Hx.
      assert (Hcur : first.2 <= (if (first.2 <? y.2)%Z then y else first).2 /\
                     y.2 <= (if (first.2 <? y.2)%Z then y else first).2)
        by (destruct (Z.ltb_spec first.2 y.2); lia).
      assert (Hhead : (if (first.2 <? y.2)%Z then y else first).2 <=
                      (max_by_count (if (first.2 <? y.2)%Z then y else first) rest).2)
        by (apply Hmax; left).
      apply elem_of_cons in Hx as [-> | Hx]; [lia |].
      apply elem_of_cons in Hx as [-> | Hx]; [lia |].
      apply Hmax. right. exact Hx.
Qed.

(** X15. For the state after any run from the empty state, whatever the
    order in which the hourly histogram lists its items: no best hour is
    reported for an empty histogram; otherwise the best hour is an hour
    bucket of the histogram with its count, and no bucket has a larger
    count. *)
Theorem best_hour_is_maximal
    (recs : list (gmap string string)) (items : list (string * Z)) :
  let s := add_records empty_aggregates recs in
  items ≡ₚ map_to_list (qsos_by_hour s) ->
  match best_hour items with
  | None => qsos_by_hour s = ∅
  | Some (h, q) =>
      qsos_by_hour s !! h = Some q /\
      forall h' q', qsos_by_hour s !! h' = Some q' -> q' <= q
  end.
Proof.
  intros s Hitems. unfold best_hour.
  destruct items as [| first rest].
  - symmetry in Hitems. apply Permutation_nil_r in Hitems.
    by apply map_to_list_empty_iff.
  - destruct (max_by_count_spec rest first) as [Hin Hmax].
    set (best := max_by_count first rest) in *.
    assert (Hbest : qsos_by_hour s !! best.1 = Some best.2).
    { apply elem_of_map_to_list. rewrite <- Hitems. by destruct best. }
    destruct (counters_well_formed_all recs) as (_ & _ & _ & _ & _ & _ & _ & Hhour & _).
    destruct (Hhour _ _ Hbest) as [Hkey _].
    destruct best as [h q]; cbn in *.
    destruct h as [| c h]; [contradiction |]. cbn.
    split; [exact Hbest |].
    intros h' q' H'. apply (Hmax (h', q')).
    rewrite Hitems. by apply elem_of_map_to_list.
Qed.

Lemma best_hour_is_maximal_witness :
  best_hour (map_to_list (qsos_by_hour mixed_20m_state)) = Some ("2026-01-26-21", 1) /\
  qsos_by_hour mixed_20m_state !! "2026-01-26-21" = Some 1.
Proof.
  split; [vm_compute; reflexivity |].
  pose proof (best_hour_is_maximal [timed_20m; untimed_20m]
                (map_to_list (qsos_by_hour mixed_20m_state))
                (reflexivity _)) as H.
  vm_compute in H. destruct H as [H _]. vm_compute. exact H.
Defined.

(** * Further properties of the parser *)

(** ** White space *)

Lemma lstrip_head (sp : ascii -> bool) (s : string) :
  match lstrip_by sp s with
  | EmptyString => True
  | String c _ => sp c = false
  end.
Proof.
  induction s as [| c s IH]; cbn; [exact I |].
  destruct (sp c) eqn:Hc; [exact IH | exact Hc].
Qed.

Lemma lstrip_fixed (sp : ascii -> bool) (s : string) :
  match s with EmptyString => True | String c _ => sp c = false end ->
  lstrip_by sp s = s.
Proof. destruct s as [| c s]; cbn; [reflexivity |]. intros ->. reflexivity. Qed.

Lemma rstrip_head (sp : ascii -> bool) (s : string) :
  match s with EmptyString => True | String c _ => sp c = false end ->
  match rstrip_by sp s with EmptyString => True | String c _ => sp c = false end.
Proof.
  destruct s as [| c s]; cbn; [trivial |]. intros Hc.
  destruct (rstrip_by sp s); [rewrite Hc |]; exact Hc.
Qed.

Lemma rstrip_idem (sp : ascii -> bool) (s : string) :
  rstrip_by sp (rstrip_by sp s) = rstrip_by sp s.
Proof.
  induction s as [| c s IH]; cbn; [reflexivity |].
  destruct (rstrip_by sp s) as [| d t] eqn:Ht.
  - destruct (sp c) eqn:Hc; cbn; [reflexivity | rewrite Hc; reflexivity].
  - change (match rstrip_by sp (String d t) with
            | EmptyString => if sp c then EmptyString else String c EmptyString
            | String a u => String c (String a u)
            end = String c (String d t)).
    rewrite IH. reflexivity.
Qed.

(** Stripping a stripped string changes nothing. *)
Lemma strip_by_idem (sp : ascii -> bool) (s : string) :
  strip_by sp (strip_by sp s) = strip_by sp s.
Proof.
  unfold strip_by.
  rewrite (lstrip_fixed sp (rstrip_by sp (lstrip_by sp s)))
    by apply rstrip_head, lstrip_head.
  apply rstrip_idem.
Qed.

Lemma rstrip_no_space (sp : ascii -> bool) (s : string) :
  all_chars (fun c => negb (sp c)) s = true -> rstrip_by sp s = s.
Proof.
  induction s as [| c s IH]; cbn; [reflexivity |].
  intros H. apply andb_prop in H as [Hc Hs]. rewrite (IH Hs).
  apply negb_true_iff in Hc. destruct s; [rewrite Hc |]; reflexivity.
Qed.

(** A string without white space is its own stripped form. *)
Lemma strip_no_space (s : string) :
  all_chars (fun c => negb (is_space c)) s = true -> strip s = s.
Proof.
  intros H. unfold strip, strip_by.
  rewrite lstrip_fixed; [apply rstrip_no_space, H |].
  destruct s as [| c s]; [exact I |]. cbn in H.
  apply andb_prop in H as [Hc _]. by apply negb_true_iff.
Qed.

Lemma all_chars_impl (p q : ascii -> bool) (s : string) :
  (forall c, p c = true -> q c = true) ->
  all_chars p s = true -> all_chars q s = true.
Proof.
  intros Hpq. induction s as [| c s IH]; cbn; [reflexivity |].
  intros H. apply andb_prop in H as [Hc Hs]. rewrite (Hpq c Hc), (IH Hs). reflexivity.
Qed.

Lemma key_char_not_space (c : ascii) :
  is_key_char c = true -> negb (is_space c) = true.
Proof.
  destruct c as [[] [] [] [] [] [] [] []]; vm_compute; intros H;
    first [reflexivity | discriminate H].
Qed.

Lemma upper_tag_char (c : ascii) :
  Regex.is_tag_char c = true -> is_key_char (upper_char c) = true.
Proof.
  destruct c as [[] [] [] [] [] [] [] []]; vm_compute; intros H;
    first [reflexivity | discriminate H].
Qed.

Lemma upper_tag_name (name : string) :
  all_chars Regex.is_tag_char name = true ->
  all_chars is_key_char (upper name) = true.
Proof.
  induction name as [| c name IH]; cbn; [reflexivity |].
  intros H. apply andb_prop in H as [Hc Hn].
  rewrite (upper_tag_char c Hc), (IH Hn). reflexivity.
Qed.

(** ** The matches of [findall] *)

Lemma findall_elem {A} (m : string -> option (A * string)) (s : string) (k : nat) (a : A) :
  a ∈ Regex.findall m k s ->
  exists pre suf rest, s = pre ++ suf /\ m suf = Some (a, rest).
Proof.
  revert k. induction s as [| c s IH]; intros k; cbn.
  - intros H. apply elem_of_nil in H. contradiction.
  - assert (Htail : forall k', a ∈ Regex.findall m k' s ->
              exists pre suf rest, String c s = pre ++ suf /\ m suf = Some (a, rest)).
    { intros k' H. destruct (IH k' H) as (pre & suf & rest & -> & Hm).
      exists (String c pre), suf, rest. split; [reflexivity | exact Hm]. }
    destruct k as [| k]; [| apply Htail].
    destruct (m (String c s)) as [[a0 rest] |] eqn:Hm; [| apply Htail].
    intros H. apply elem_of_cons in H as [-> | H]; [| by apply Htail in H].
    exists "", (String c s), rest. split; [reflexivity | exact Hm].
Qed.

Lemma span_all (p : ascii -> bool) (s a b : string) :
  Regex.span p s = (a, b) -> all_chars p a = true.
Proof.
  revert a b. induction s as [| c s IH]; intros a b; cbn.
  - intros [= <- <-]. reflexivity.
  - destruct (p c) eqn:Hc.
    + destruct (Regex.span p s) as [a' b'] eqn:Hs. intros [= <- <-]. cbn.
      rewrite Hc. apply (IH a' b' eq_refl).
    + intros [= <- <-]. reflexivity.
Qed.

(** The name of a matched tag is a non-empty run of name characters. *)
Lemma tag_at_name (s name val rest : string) :
  Regex.tag_at s = Some ((name, val), rest) ->
  name <> "" /\ all_chars Regex.is_tag_char name = true.
Proof.
  unfold Regex.tag_at. destruct s as [| c s1]; [discriminate |].
  destruct (Ascii.eqb_spec c "<") as [-> | Hc].
  2: { destruct c as [[] [] [] [] [] [] [] []]; try discriminate. contradiction. }
  destruct (Regex.span Regex.is_tag_char s1) as [n after] eqn:Hspan.
  destruct n as [| n0 n1]; [discriminate |].
  destruct after as [| g s2]; [discriminate |].
  destruct (Ascii.eqb_spec g ">") as [-> | Hg].
  2: { destruct g as [[] [] [] [] [] [] [] []]; try discriminate. contradiction. }
  destruct (Regex.find_lit_ci _ s2) as [[v r] |]; [| discriminate].
  intros [= <- _ _]. split; [discriminate |]. apply (span_all _ _ _ _ Hspan).
Qed.

Lemma parse_tags_step_well_formed (rec : gmap string string) (name val : string) :
  name <> "" -> all_chars Regex.is_tag_char name = true ->
  map_Forall well_formed_field rec ->
  map_Forall well_formed_field (parse_tags_step rec (name, val)).
Proof.
  intros Hne Hname Hrec. unfold parse_tags_step; cbn [fst snd].
  pose proof (upper_tag_name name Hname) as Hkey.
  rewrite (strip_no_space (upper name))
    by (eapply all_chars_impl; [apply key_char_not_space | exact Hkey]).
  destruct (is_empty (upper name)) eqn:He; [exact Hrec |]. cbn [orb].
  case_bool_decide as Hstruct; [exact Hrec |].
  apply map_Forall_insert_2; [| exact Hrec].
  split_and!; [| exact Hkey | exact Hstruct | apply strip_by_idem].
  intros E. rewrite E in He. discriminate He.
Qed.

Lemma parse_tags_well_formed (block : string) :
  map_Forall well_formed_field (_parse_tags block).
Proof.
  unfold _parse_tags, tag_pairs.
  assert (Hall : forall tv, tv ∈ Regex.findall Regex.tag_at 0 block ->
            tv.1 <> "" /\ all_chars Regex.is_tag_char tv.1 = true).
  { intros [name val] H. destruct (findall_elem _ _ _ _ H) as (pre & suf & rest & _ & Hm).
    apply (tag_at_name _ _ _ _ Hm). }
  revert Hall. generalize (Regex.findall Regex.tag_at 0 block). intros pairs.
  assert (Hgen : forall rec, map_Forall well_formed_field rec ->
            (forall tv, tv ∈ pairs -> tv.1 <> "" /\ all_chars Regex.is_tag_char tv.1 = true) ->
            map_Forall well_formed_field (foldl parse_tags_step rec pairs)).
  { induction pairs as [| [name val] pairs IH]; intros rec Hrec Hall; [exact Hrec |].
    cbn [foldl]. apply IH.
    - destruct (Hall (name, val)) as [Hne Hname]; [left |].
      by apply parse_tags_step_well_formed.
    - intros tv Htv. apply Hall. right. exact Htv. }
  apply Hgen. apply map_Forall_empty.
Qed.

(** X16. Every field of the dictionary that [_parse_tags] returns, for
    any text, has a non-empty key made of capital letters, digits and
    underscores only, other than CMD and LISTRESPONSE, and a value without
    white space at either end. *)
Theorem parse_tags_fields_well_formed (block k v : string) :
  _parse_tags block !! k = Some v ->
  k <> "" /\ all_chars is_key_char k = true /\ (k ∉ structural_tags) /\ strip v = v.
Proof. apply parse_tags_well_formed. Qed.

Lemma parse_tags_fields_well_formed_witness :
  _parse_tags "<call> w1aw </Call><cmd>x</cmd>" !! "CALL" = Some "w1aw" /\
  strip "w1aw" = "w1aw".
Proof.
  split; [reflexivity |].
  apply (parse_tags_fields_well_formed "<call> w1aw </Call><cmd>x</cmd>" "CALL" "w1aw" eq_refl).
Defined.

Lemma records_of_elem (chunks : list string) (rec : gmap string string) :
  rec ∈ records_of chunks -> rec <> ∅ /\ exists chunk, chunk ∈ chunks /\ rec = _parse_tags chunk.
Proof.
  induction chunks as [| c chunks IH]; cbn.
  - intros H. apply elem_of_nil in H. contradiction.
  - destruct (decide (_parse_tags c = ∅)) as [He | Hne].
    + intros H. destruct (IH H) as (Hr & chunk & Hin & ->).
      split; [exact Hr |]. exists chunk. split; [right; exact Hin | reflexivity].
    + intros H. apply elem_of_cons in H as [-> | H].
      * split; [exact Hne |]. exists c. split; [left | reflexivity].
      * destruct (IH H) as (Hr & chunk & Hin & ->).
        split; [exact Hr |]. exists chunk. split; [right; exact Hin | reflexivity].
Qed.

(** X17. Every record that [parse_cmd_records] returns, for any text and
    either framing, has at least one field, and its fields have uppercase
    keys (capital letters, digits, underscores; never CMD or LISTRESPONSE)
    and values without white space at either end. *)
Theorem parsed_records_well_formed (text : string) (rec : gmap string string) :
  rec ∈ parse_cmd_records text ->
  rec <> ∅ /\
  forall k v, rec !! k = Some v ->
    k <> "" /\ all_chars is_key_char k = true /\ (k ∉ structural_tags) /\ strip v = v.
Proof.
  unfold parse_cmd_records, parse_format_a, parse_format_b.
  intros H.
  assert (Hrec : exists chunks, rec ∈ records_of chunks).
  { destruct (is_empty text); [apply elem_of_nil in H; contradiction |].
    destruct (has_close text); eauto. }
  destruct Hrec as [chunks Hrec].
  destruct (records_of_elem _ _ Hrec) as (Hne & chunk & _ & ->).
  split; [exact Hne |]. intros k v. apply parse_tags_well_formed.
Qed.

Lemma parsed_records_well_formed_witness :
  ({[ "CALL" := "K1ABC" ]} : gmap string string) <> ∅ /\
  forall k v, ({[ "CALL" := "K1ABC" ]} : gmap string string) !! k = Some v ->
    k <> "" /\ all_chars is_key_char k = true /\ (k ∉ structural_tags) /\ strip v = v.
Proof.
  apply (parsed_records_well_formed sample_b).
  apply (bool_decide_unpack _). vm_compute. reflexivity.
Defined.

(** ** Texts without marker *)

Lemma no_marker_no_records (text : string) :
  has_close text = false -> no_marker text -> parse_cmd_records text = [].
Proof.
  intros Hclose Hmark. unfold parse_cmd_records, parse_format_b, marker_parts.
  rewrite Hclose, split_no_marker by exact Hmark.
  destruct (is_empty text); reflexivity.
Qed.

(** X18. A response in which neither a closing delimiter nor an outer
    marker occurs gives no record, whatever tags it holds, and a fetch
    that receives it leaves the state as it is. *)
Theorem response_without_marker (s : Aggregates) (text : string) :
  has_close text = false -> no_marker text ->
  parse_cmd_records text = [] /\ fetch_and_merge s text = s.
Proof.
  intros Hclose Hmark. pose proof (no_marker_no_records text Hclose Hmark) as H.
  split; [exact H |]. unfold fetch_and_merge, do_list_parse; cbn [fst].
  rewrite H. reflexivity.
Qed.

Lemma response_without_marker_witness :
  tag_pairs "<CALL>W1AW</CALL><MODE>CW</MODE>" = [("CALL", "W1AW"); ("MODE", "CW")] /\
  parse_cmd_records "<CALL>W1AW</CALL><MODE>CW</MODE>" = [] /\
  fetch_and_merge mixed_20m_state "<CALL>W1AW</CALL><MODE>CW</MODE>" = mixed_20m_state.
Proof.
  split; [reflexivity |].
  exact (response_without_marker mixed_20m_state "<CALL>W1AW</CALL><MODE>CW</MODE>"
           eq_refl eq_refl).
Defined.

(** ** The command and its echo *)

Lemma uint_digits (d : Decimal.uint) :
  all_chars is_digit (DecimalString.NilEmpty.string_of_uint d) = true.
Proof. induction d; cbn; [reflexivity | exact IHd ..]. Qed.

Lemma digit_or_minus_not_lt (c : ascii) :
  (is_digit c || eqb_char c "-") = true -> eqb_char_ci "<" c = false.
Proof.
  destruct c as [[] [] [] [] [] [] [] []]; vm_compute; intros H;
    first [reflexivity | discriminate H].
Qed.

(** The decimal rendering of an integer holds digits and at most a
    leading minus sign: no [<]. *)
Lemma str_of_int_no_lt (n : Z) :
  all_chars (fun c => negb (eqb_char_ci "<" c)) (str_of_int n) = true.
Proof.
  assert (Hu : forall d, all_chars (fun c => negb (eqb_char_ci "<" c))
                           (DecimalString.NilZero.string_of_uint d) = true).
  { intros d. eapply all_chars_impl with (p := is_digit).
    - intros c Hc. rewrite digit_or_minus_not_lt; [reflexivity |].
      rewrite Hc. reflexivity.
    - destruct d; try apply (uint_digits (_ d)); reflexivity. }
  unfold str_of_int, DecimalString.NilZero.string_of_int.
  destruct (Z.to_int n) as [d | d]; [apply Hu |].
  cbn [all_chars]. rewrite Hu. reflexivity.
Qed.

Lemma find_lit_ci_step (lit : string) (c : ascii) (s : string) :
  Regex.eat_ci lit (String c s) = None ->
  Regex.find_lit_ci lit (String c s) =
    match Regex.find_lit_ci lit s with
    | Some (v, rest) => Some (String c v, rest)
    | None => None
    end.
Proof. intros H. cbn [Regex.find_lit_ci]. rewrite H. reflexivity. Qed.

(** The search for a literal that starts with [<] passes over a text
    without [<]. *)
Lemma find_lit_ci_skip (lit u v : string) :
  all_chars (fun c => negb (eqb_char_ci "<" c)) u = true ->
  Regex.find_lit_ci (String "<" lit) (u ++ v) =
    match Regex.find_lit_ci (String "<" lit) v with
    | Some (val, rest) => Some (u ++ val, rest)
    | None => None
    end.
Proof.
  induction u as [| c u IH]; cbn [all_chars String.append].
  - intros _. destruct (Regex.find_lit_ci _ v) as [[val rest] |]; reflexivity.
  - intros H. apply andb_prop in H as [Hc Hu]. apply negb_true_iff in Hc.
    rewrite find_lit_ci_step by (cbn; rewrite Hc; reflexivity).
    rewrite (IH Hu). destruct (Regex.find_lit_ci _ v) as [[val rest] |]; reflexivity.
Qed.

Lemma search_step {A} (m : string -> option A) (c : ascii) (s : string) :
  m (String c s) = None -> Regex.search m (String c s) = Regex.search m s.
Proof. intros H. cbn [Regex.search]. rewrite H. reflexivity. Qed.

Lemma delim_at_not_lt (open : string) (c : ascii) (s : string) :
  eqb_char_ci "<" c = false ->
  Regex.delim_at (String "<" open) (String c s) = None.
Proof. intros Hc. unfold Regex.delim_at. cbn. rewrite Hc. reflexivity. Qed.

(** The searches for a delimiter pass over a text without [<]. *)
Lemma search_delim_skip (open u v : string) :
  all_chars (fun c => negb (eqb_char_ci "<" c)) u = true ->
  Regex.search (Regex.delim_at (String "<" open)) (u ++ v) =
    Regex.search (Regex.delim_at (String "<" open)) v.
Proof.
  induction u as [| c u IH]; cbn [all_chars String.append]; [reflexivity |].
  intros H. apply andb_prop in H as [Hc Hu]. apply negb_true_iff in Hc.
  rewrite search_step by (apply delim_at_not_lt, Hc). apply IH, Hu.
Qed.

Lemma findall_skip_all {A} (m : string -> option (A * string)) (s : string) (k : nat) :
  (String.length s <= k)%nat -> Regex.findall m k s = [].
Proof.
  revert k. induction s as [| c s IH]; intros k; cbn; [reflexivity |].
  intros H. destruct k as [| k]; [lia |]. apply IH. lia.
Qed.

(** The tag pairs of a text that is one tag from its first to its last
    character. *)
Lemma tag_pairs_whole (s name val : string) :
  Regex.tag_at s = Some ((name, val), "") -> tag_pairs s = [(name, val)].
Proof.
  intros H. unfold tag_pairs. destruct s as [| c s]; [discriminate H |].
  cbn [Regex.findall]. rewrite H. f_equal.
  apply findall_skip_all. unfold Regex.consumed. cbn. lia.
Qed.

Ltac pass_literal step :=
  cbn [String.append];
  repeat (rewrite step by reflexivity).

Lemma span_cmd (rest : string) :
  Regex.span Regex.is_tag_char (String "C" (String "M" (String "D" (String ">" rest)))) =
    ("CMD", String ">" rest).
Proof. reflexivity. Qed.

Lemma build_list_cmd_tag (n : Z) (include_all : bool) :
  exists val : string,
    Regex.tag_at (build_list_cmd n include_all) = Some (("CMD", val), "").
Proof.
  pose proof (str_of_int_no_lt n) as Hn.
  unfold build_list_cmd, Regex.tag_at.
  destruct include_all; cbn [String.append]; rewrite span_cmd;
    pass_literal find_lit_ci_step;
    rewrite (find_lit_ci_skip _ _ _ Hn);
    change (Regex.find_lit_ci "</CMD>" "</VALUE></LIST></CMD>")
      with (Some ("</VALUE></LIST>", ""));
    cbn iota; eauto.
Qed.

Lemma build_list_cmd_no_delimiter (open : string) (n : Z) (include_all : bool) :
  open = "" \/ open = "/" ->
  Regex.search (Regex.delim_at (String "<" open)) (build_list_cmd n include_all) = false.
Proof.
  pose proof (str_of_int_no_lt n) as Hn.
  intros [-> | ->]; unfold build_list_cmd; destruct include_all;
    pass_literal (@search_step string);
    rewrite (search_delim_skip _ _ _ Hn); reflexivity.
Qed.

(** X19. For every count and either form of the list command, the command
    is one CMD tag from its first to its last character: read back as a
    block it yields no field, since CMD is a structural tag, and read back
    as a response it yields no record. *)
Theorem list_command_echo (n : Z) (include_all : bool) :
  (exists val, tag_pairs (build_list_cmd n include_all) = [("CMD", val)]) /\
  _parse_tags (build_list_cmd n include_all) = ∅ /\
  parse_cmd_records (build_list_cmd n include_all) = [].
Proof.
  destruct (build_list_cmd_tag n include_all) as [val Hval].
  pose proof (tag_pairs_whole _ _ _ Hval) as Hpairs.
  split; [eauto |]. split.
  - unfold _parse_tags. rewrite Hpairs. reflexivity.
  - apply no_marker_no_records.
    + apply (build_list_cmd_no_delimiter "/"). by right.
    + apply (build_list_cmd_no_delimiter ""). by left.
Qed.

Example build_list_cmd_sample :
  build_list_cmd 5000 true = "<CMD><LIST><INCLUDEALL><VALUE>5000</VALUE></LIST></CMD>" /\
  build_list_cmd 80 false = "<CMD><LIST><VALUE>80</VALUE></LIST></CMD>" /\
  build_list_cmd (-3) false = "<CMD><LIST><VALUE>-3</VALUE></LIST></CMD>".
Proof. repeat split; reflexivity. Qed.

(** ** The diagnostics of a fetch *)

Lemma eqb_upper_ci (a b : ascii) :
  eqb_char a (upper_char b) = true -> eqb_char_ci a b = true.
Proof.
  intros H. apply Ascii.eqb_eq in H as ->.
  destruct b as [[] [] [] [] [] [] [] []]; vm_compute; reflexivity.
Qed.

Lemma upper_lower_char (c : ascii) : upper_char (lower_char c) = upper_char c.
Proof. destruct c as [[] [] [] [] [] [] [] []]; vm_compute; reflexivity. Qed.

Lemma is_space_lower_char (c : ascii) : is_space (lower_char c) = is_space c.
Proof. destruct c as [[] [] [] [] [] [] [] []]; vm_compute; reflexivity. Qed.

Lemma eqb_ci_upper (a b : ascii) :
  upper_char a = a -> eqb_char_ci a b = true -> eqb_char a (upper_char b) = true.
Proof.
  intros Ha H. apply Ascii.eqb_eq in H. apply Ascii.eqb_eq.
  transitivity (upper_char (lower_char a)).
  - rewrite upper_lower_char. symmetry. exact Ha.
  - rewrite H. apply upper_lower_char.
Qed.

(** A literal found at the start of the uppercased text matches the text
    up to case. *)
Lemma is_prefix_upper_eat (lit s : string) :
  is_prefix lit (upper s) = true -> is_Some (Regex.eat_ci lit s).
Proof.
  revert s. induction lit as [| a lit IH]; intros s; cbn; [eauto |].
  destruct s as [| b s]; cbn; [discriminate |].
  intros H. apply andb_prop in H as [Hab Hrest].
  rewrite (eqb_upper_ci a b Hab). apply IH, Hrest.
Qed.

(** An uppercase literal that matches the text up to case stands at the
    start of the uppercased text. *)
Lemma eat_is_prefix_upper (lit s rest : string) :
  upper lit = lit -> Regex.eat_ci lit s = Some rest -> is_prefix lit (upper s) = true.
Proof.
  revert s. induction lit as [| a lit IH]; intros s; cbn; [reflexivity |].
  intros [= Ha Hlit]. destruct s as [| b s]; cbn; [discriminate |].
  destruct (eqb_char_ci a b) eqn:Hab; [| discriminate].
  intros H. rewrite (eqb_ci_upper a b Ha Hab). apply (IH s Hlit H).
Qed.

Lemma eat_ci_lit_app (a b s : string) :
  Regex.eat_ci (a ++ b) s =
    match Regex.eat_ci a s with
    | Some r => Regex.eat_ci b r
    | None => None
    end.
Proof.
  revert s. induction a as [| c a IH]; intros s; cbn; [reflexivity |].
  destruct s as [| d s]; [reflexivity |].
  destruct (eqb_char_ci c d); [apply IH | reflexivity].
Qed.

Lemma upper_app (s t : string) : upper (s ++ t) = upper s ++ upper t.
Proof. induction s as [| c s IH]; cbn; [reflexivity | by rewrite IH]. Qed.

Lemma contains_app_r (sub pre s : string) :
  is_prefix sub s = true -> contains sub (pre ++ s) = true.
Proof.
  intros H. induction pre as [| c pre IH]; cbn [String.append].
  - destruct s; cbn; rewrite H; reflexivity.
  - cbn [contains]. rewrite IH. apply orb_true_r.
Qed.

Lemma contains_upper_split (sub text : string) :
  contains sub (upper text) = true ->
  exists pre suf, text = pre ++ suf /\ is_prefix sub (upper suf) = true.
Proof.
  induction text as [| c text IH].
  - cbn. rewrite orb_false_r. intros H. exists "", "". split; [reflexivity | exact H].
  - cbn [upper contains]. intros H. apply orb_prop in H as [H | H].
    + exists "", (String c text). split; [reflexivity | exact H].
    + destruct (IH H) as (pre & suf & -> & Hp).
      exists (String c pre), suf. split; [reflexivity | exact Hp].
Qed.

Lemma ci_letter_not_space (a b : ascii) :
  is_space a = false -> eqb_char_ci a b = true -> is_space b = false.
Proof.
  intros Ha H. apply Ascii.eqb_eq in H.
  rewrite <- (is_space_lower_char b), <- H, is_space_lower_char. exact Ha.
Qed.

Lemma eat_ci_head_not_space (a : ascii) (lit s rest : string) :
  is_space a = false -> Regex.eat_ci (String a lit) s = Some rest ->
  lstrip_by is_space s = s.
Proof.
  intros Ha. destruct s as [| b s]; cbn; [discriminate |].
  destruct (eqb_char_ci a b) eqn:Hab; [| discriminate].
  intros _. rewrite (ci_letter_not_space a b Ha Hab). reflexivity.
Qed.

(** The delimiter written without white space is matched by the
    delimiter pattern. *)
Lemma plain_delimiter (open s rest : string) :
  Regex.eat_ci (open ++ "LISTRESPONSE" ++ ">") s = Some rest ->
  Regex.delim_at open s = Some rest.
Proof.
  rewrite eat_ci_lit_app. unfold Regex.delim_at.
  destruct (Regex.eat_ci open s) as [s1 |]; [| intros H; exact H].
  rewrite eat_ci_lit_app.
  destruct (Regex.eat_ci "LISTRESPONSE" s1) as [s2 |] eqn:H2; [| intros H; discriminate H].
  intros H3.
  rewrite (eat_ci_head_not_space "L" "ISTRESPONSE" s1 s2 eq_refl H2), H2.
  rewrite (eat_ci_head_not_space ">" "" s2 rest eq_refl H3). exact H3.
Qed.

Lemma records_of_nonempty (chunks : list string) :
  records_of chunks <> [] -> chunks <> [].
Proof. destruct chunks; [intros H; contradiction | discriminate]. Qed.



(** * Further properties of the timestamp derivation *)

Lemma digit_not_slash (c : ascii) : is_digit c = true -> eqb_char c "/" = false.
Proof.
  destruct c as [[] [] [] [] [] [] [] []]; vm_compute; intros H;
    first [reflexivity | discriminate H].
Qed.

Lemma digits_no_slash (s : string) :
  all_chars is_digit s = true -> contains_char "/" s = false.
Proof.
  induction s as [| c s IH]; cbn; [reflexivity |].
  intros H. apply andb_prop in H as [Hc Hs].
  rewrite (digit_not_slash c Hc), (IH Hs). reflexivity.
Qed.

Lemma all_chars_app (p : ascii -> bool) (s t : string) :
  all_chars p (s ++ t) = all_chars p s && all_chars p t.
Proof.
  induction s as [| c s IH]; cbn; [reflexivity |].
  rewrite IH. apply andb_assoc.
Qed.

Lemma length_two (s : string) :
  String.length s = 2%nat -> exists a b, s = String a (String b "").
Proof.
  destruct s as [| a [| b [| c s]]]; cbn; try discriminate. eauto.
Qed.

Lemma length_four (s : string) :
  String.length s = 4%nat ->
  exists a b c d, s = String a (String b (String c (String d ""))).
Proof.
  destruct s as [| a [| b [| c [| d [| e s]]]]]; cbn; try discriminate. eauto 6.
Qed.

(** X21. For a date of eight digits (year, month, day) the hour bucket is
    "2026-", the month, the day and the hour, whatever the four digits of
    the year are; and there is a bucket exactly when the time, colons
    removed and stripped, has at least two characters. *)
Theorem compact_date_bucket (year month day qso_time : string) :
  String.length year = 4%nat -> String.length month = 2%nat ->
  String.length day = 2%nat ->
  all_chars is_digit (year ++ month ++ day) = true ->
  time_bucket (year ++ month ++ day) qso_time =
    (fun hour => "2026-" ++ month ++ "-" ++ day ++ "-" ++ hour) <$> hour_of qso_time.
Proof.
  intros Hy Hm Hd Hdigits.
  pose proof (digits_no_slash _ Hdigits) as Hslash.
  destruct (length_four _ Hy) as (y1 & y2 & y3 & y4 & ->).
  destruct (length_two _ Hm) as (m1 & m2 & ->).
  destruct (length_two _ Hd) as (d1 & d2 & ->).
  cbn [String.append] in *.
  unfold time_bucket, hour_key, month_day.
  rewrite Hslash. unfold isdigit. rewrite Hdigits.
  cbn [String.length Nat.eqb truthy is_empty negb andb slice substring Nat.sub].
  destruct qso_time as [| c t]; [reflexivity |].
  cbn [truthy is_empty negb andb].
  destruct (hour_of (String c t)) as [hour |] eqn:Hhour; cbn; [| reflexivity].
  assert (Hne : truthy hour = true).
  { unfold hour_of in Hhour. cbn [truthy is_empty negb] in Hhour.
    destruct (2 <=? String.length _)%nat eqn:Hlen; [| discriminate Hhour].
    injection Hhour as <-. apply Nat.leb_le in Hlen.
    destruct (strip _) as [| a [| b r]]; cbn in Hlen; try lia. reflexivity. }
  rewrite Hne. reflexivity.
Qed.

Lemma compact_date_bucket_witness :
  time_bucket "20260126" "21:59" = Some "2026-01-26-21" /\
  time_bucket "19990126" "2159" = Some "2026-01-26-21".
Proof.
  split.
  - exact (compact_date_bucket "2026" "01" "26" "21:59" eq_refl eq_refl eq_refl eq_refl).
  - exact (compact_date_bucket "1999" "01" "26" "2159" eq_refl eq_refl eq_refl eq_refl).
Defined.

Lemma contains_char_app (sep : ascii) (u v : string) :
  contains_char sep (u ++ String sep v) = true.
Proof.
  induction u as [| c u IH]; cbn.
  - unfold eqb_char. rewrite Ascii.eqb_refl. reflexivity.
  - rewrite IH. apply orb_true_r.
Qed.

Lemma split_on_nonempty (sep : ascii) (s : string) : split_on sep s <> [].
Proof.
  destruct s as [| c s]; cbn; [discriminate |].
  destruct (eqb_char c sep); [discriminate |].
  destruct (split_on sep s); discriminate.
Qed.

(** The first piece of a split is the text before the first separator. *)
Lemma split_on_head (sep : ascii) (u v : string) :
  contains_char sep u = false ->
  split_on sep (u ++ v) =
    match split_on sep v with
    | p :: ps => (u ++ p) :: ps
    | [] => [u]
    end.
Proof.
  induction u as [| c u IH]; cbn [String.append contains_char split_on].
  - intros _. pose proof (split_on_nonempty sep v) as Hn.
    destruct (split_on sep v); [contradiction | reflexivity].
  - intros H. apply orb_false_elim in H as [Hc Hu].
    rewrite Hc, (IH Hu). destruct (split_on sep v); reflexivity.
Qed.

Lemma string_app_snoc (r : string) (c : ascii) (t : string) :
  (r ++ String c "") ++ t = r ++ String c t.
Proof.
  induction r as [| d r IHr]; [reflexivity |].
  rewrite !string_app_cons. f_equal. exact IHr.
Qed.

Lemma rev_app_app (s t : string) : String.rev_app s t = String.rev_app s "" ++ t.
Proof.
  revert t. induction s as [| c s IH]; intros t; cbn [String.rev_app]; [reflexivity |].
  rewrite (IH (String c t)), (IH (String c "")).
  symmetry. apply string_app_snoc.
Qed.

(** The first word of a text that starts with a run without white space
    followed by nothing or by white space is that run. *)
Lemma split_ws_first (word rest : string) (acc : string) :
  all_chars (fun c => negb (is_space c)) word = true ->
  match rest with EmptyString => True | String c _ => is_space c = true end ->
  exists more,
    split_ws_aux (Some acc) (word ++ rest) = (String.rev acc ++ word) :: more.
Proof.
  revert acc. induction word as [| a word IH]; intros acc Hword Hrest.
  - cbn [String.append]. rewrite string_app_nil_r.
    destruct rest as [| c rest]; cbn; [eauto |]. rewrite Hrest. eauto.
  - cbn in Hword. apply andb_prop in Hword as [Ha Hword].
    apply negb_true_iff in Ha. cbn [String.append split_ws_aux]. rewrite Ha.
    destruct (IH (String a acc) Hword Hrest) as [more Hmore].
    exists more. rewrite Hmore. f_equal.
    unfold String.rev. cbn [String.rev_app].
    rewrite (rev_app_app acc (String a "")).
    apply string_app_snoc.
Qed.

Lemma month_day_slash (month day rest : string) :
  contains_char "/" month = false ->
  day <> "" -> all_chars (fun c => negb (is_space c)) day = true ->
  contains_char "/" day = false ->
  match rest with EmptyString => True | String c _ => is_space c = true end ->
  month_day (month ++ "/" ++ day ++ rest) = Returned (Some (zfill2 month, zfill2 day)).
Proof.
  intros Hmonth Hne Hday Hslash Hrest. unfold month_day.
  change (month ++ "/" ++ day ++ rest) with (month ++ String "/" (day ++ rest)).
  rewrite contains_char_app.
  rewrite (split_on_head "/" month _ Hmonth).
  change (split_on "/" (String "/" (day ++ rest))) with ("" :: split_on "/" (day ++ rest)).
  rewrite (split_on_head "/" day rest Hslash).
  assert (Hp : exists p ps, split_on "/" rest = p :: ps /\
                 match p with EmptyString => True | String c _ => is_space c = true end).
  { destruct rest as [| c rest]; [exists "", []; split; [reflexivity | exact I] |].
    cbn [split_on]. destruct (eqb_char c "/") eqn:Hc.
    - apply Ascii.eqb_eq in Hc as ->. discriminate Hrest.
    - pose proof (split_on_nonempty "/" rest) as Hn.
      destruct (split_on "/" rest) as [| p ps]; [contradiction |].
      exists (String c p), ps. split; [reflexivity | exact Hrest]. }
  destruct Hp as (p & ps & -> & Hpspace).
  rewrite string_app_nil_r.
  unfold split_ws.
  destruct day as [| d day]; [contradiction |].
  cbn in Hday. apply andb_prop in Hday as [Hd Hday]. apply negb_true_iff in Hd.
  cbn [String.append split_ws_aux]. rewrite Hd.
  destruct (split_ws_first day p (String d "") Hday Hpspace) as [more ->].
  reflexivity.
Qed.

(** X22. For a date written as month, slash, day (the day a non-empty run
    without white space or slash, optionally followed by white space and
    anything else, such as a time), the hour bucket is "2026-", the month
    and the day each padded to two characters, and the hour; what follows
    the day is discarded and neither part is checked to be a number. *)
Theorem slash_date_bucket (month day rest qso_time : string) :
  contains_char "/" month = false ->
  day <> "" -> all_chars (fun c => negb (is_space c)) day = true ->
  contains_char "/" day = false ->
  match rest with EmptyString => True | String c _ => is_space c = true end ->
  time_bucket (month ++ "/" ++ day ++ rest) qso_time =
    (fun hour => "2026-" ++ zfill2 month ++ "-" ++ zfill2 day ++ "-" ++ hour)
      <$> hour_of qso_time.
Proof.
  intros Hmonth Hne Hday Hslash Hrest.
  unfold time_bucket, hour_key.
  rewrite (month_day_slash month day rest Hmonth Hne Hday Hslash Hrest).
  assert (Hdate : truthy (month ++ "/" ++ day ++ rest) = true)
    by (destruct month; reflexivity).
  rewrite Hdate.
  destruct qso_time as [| c t]; [reflexivity |].
  cbn [truthy is_empty negb andb].
  destruct (hour_of (String c t)) as [hour |] eqn:Hhour; cbn [fmap option_fmap option_map];
    [| reflexivity].
  assert (Hh : truthy hour = true).
  { unfold hour_of in Hhour. cbn [truthy is_empty negb] in Hhour.
    destruct (2 <=? String.length _)%nat eqn:Hlen; [| discriminate Hhour].
    injection Hhour as <-. apply Nat.leb_le in Hlen.
    destruct (strip _) as [| a [| b r]]; cbn in Hlen; try lia. reflexivity. }
  assert (Hz : forall s, truthy (zfill2 s) = true).
  { intros [| a [| b s]]; cbn; [reflexivity | | reflexivity].
    destruct (eqb_char a "+" || eqb_char a "-"); reflexivity. }
  rewrite !Hz, Hh. reflexivity.
Qed.

Lemma slash_date_bucket_witness :
  time_bucket "1/26 21:59" "21:59:30" = Some "2026-01-26-21" /\
  time_bucket "ab/cd" "xy" = Some "2026-ab-cd-xy".
Proof.
  split.
  - exact (slash_date_bucket "1" "26" " 21:59" "21:59:30"
             eq_refl ltac:(discriminate) eq_refl eq_refl eq_refl).
  - exact (slash_date_bucket "ab" "cd" "" "xy"
             eq_refl ltac:(discriminate) eq_refl eq_refl I).
Defined.
